(** * Schema kinds and the appdata conformance simulator

    A shallow embedding of two Go packages of the repository:

    - package [schema] (the [Kind] registry: [Validate], [String],
      [ValidateValueType], [ValidateValue], [ValidKeyKind],
      [KindForGoValue], [MarshalJSON], [UnmarshalJSON] and the [init]
      function that fills [kindStrings]);
    - package [appdatatest] ([Simulator.ProcessBlockData] and
      [Simulator.BlockDataGenN]).

    Go's [int] is embedded as [Z], a Go [string] as a Rocq [string] (a
    sequence of 8-bit bytes), a Go [map] as a [gmap], a Go [error] as the
    type [error] below ([ok] is Go's [nil] error). *)

From Stdlib Require Import ZArith Ascii String List Lia Bool.
From stdpp Require Import gmap strings list fin_maps pretty.

Open Scope string_scope.
Open Scope list_scope.
Open Scope Z_scope.

(** ** Go's [error] interface *)

Inductive error : Type :=
| ok
| Errorf (msg : string).

Definition is_err (e : error) : bool :=
  match e with ok => false | Errorf _ => true end.

(** A byte is an 8-bit character; [[]byte] is a list of them and the
    conversion [[]byte(s)] of a Go string is [list_ascii_of_string]. *)
Abbreviation byte := ascii (only parsing).

Definition byte_val (c : byte) : Z := Z.of_N (N_of_ascii c).

(** ** Go values held in an [interface{}]

    One constructor per dynamic type the package looks at; [VNil] is
    the nil interface and [VOther] a value of any other type, of which
    only the name printed by the verb [%T] is kept. The payloads of
    numbers, times and durations are their integer representations. *)
Inductive GoValue : Type :=
| VNil
| VString (s : string)
| VBytes (b : list byte)
| VInt8 (n : Z)
| VUint8 (n : Z)
| VInt16 (n : Z)
| VUint16 (n : Z)
| VInt32 (n : Z)
| VUint32 (n : Z)
| VInt64 (n : Z)
| VUint64 (n : Z)
| VFloat32 (bits : Z)
| VFloat64 (bits : Z)
| VBool (b : bool)
| VTime (unixNano : Z)
| VDuration (n : Z)
| VRawMessage (b : list byte)
| VOther (typeName : string).

(** ** The fragment of package fmt in use *)
Module fmt.

(** The verb [%d] applied to an integer (decimal, leading [-] when
    the number is negative). *)
Definition d (z : Z) : string := pretty z.

(** The verb [%T]: the name of the dynamic type. *)
Definition T (value : GoValue) : string :=
  match value with
  | VNil => "<nil>"
  | VString _ => "string"
  | VBytes _ => "[]uint8"
  | VInt8 _ => "int8"
  | VUint8 _ => "uint8"
  | VInt16 _ => "int16"
  | VUint16 _ => "uint16"
  | VInt32 _ => "int32"
  | VUint32 _ => "uint32"
  | VInt64 _ => "int64"
  | VUint64 _ => "uint64"
  | VFloat32 _ => "float32"
  | VFloat64 _ => "float64"
  | VBool _ => "bool"
  | VTime _ => "time.Time"
  | VDuration _ => "time.Duration"
  | VRawMessage _ => "json.RawMessage"
  | VOther typeName => typeName
  end.

(** The verb [%s] on the values that reach it: a string prints as
    itself and a slice of bytes as the string of its bytes. *)
Definition s (value : GoValue) : string :=
  match value with
  | VString str => str
  | VBytes b | VRawMessage b => string_of_list_ascii b
  | _ => ""
  end.

End fmt.

(** ** The fragment of package unicode/utf8 in use

    [decode] follows [utf8.DecodeRuneInString]: the table [first] gives,
    for a leading byte, the length of the sequence and the range
    accepted for the second byte; the other continuation bytes lie in
    [0x80, 0xBF]. A sequence that is not well formed decodes to
    [RuneError] with width 1. *)
Module utf8.

Definition RuneError : Z := 0xFFFD.
Definition locb : Z := 0x80.
Definition hicb : Z := 0xBF.

Inductive lead : Type :=
| ASCII
| Illegal
| Multi (size : nat) (lo hi : Z).

Definition first (b : Z) : lead :=
  if b <? 0x80 then ASCII
  else if b <? 0xC2 then Illegal
  else if b <? 0xE0 then Multi 2 locb hicb
  else if b =? 0xE0 then Multi 3 0xA0 hicb
  else if b <? 0xED then Multi 3 locb hicb
  else if b =? 0xED then Multi 3 locb 0x9F
  else if b <? 0xF0 then Multi 3 locb hicb
  else if b =? 0xF0 then Multi 4 0x90 hicb
  else if b <? 0xF4 then Multi 4 locb hicb
  else if b =? 0xF4 then Multi 4 locb 0x8F
  else Illegal.

Definition cont (b : Z) : bool := (locb <=? b) && (b <=? hicb).

(** The rune and the number of bytes it takes; [(RuneError, 0)] on the
    empty input. *)
Definition decode (s : list byte) : Z * nat :=
  match s with
  | [] => (RuneError, 0%nat)
  | c0 :: t0 =>
    let s0 := byte_val c0 in
    match first s0 with
    | ASCII => (s0, 1%nat)
    | Illegal => (RuneError, 1%nat)
    | Multi sz lo hi =>
      match t0 with
      | [] => (RuneError, 1%nat)
      | c1 :: t1 =>
        let s1 := byte_val c1 in
        if (s1 <? lo) || (hi <? s1) then (RuneError, 1%nat)
        else if (sz <=? 2)%nat then
          (Z.lor (Z.shiftl (Z.land s0 0x1F) 6) (Z.land s1 0x3F), 2%nat)
        else
          match t1 with
          | [] => (RuneError, 1%nat)
          | c2 :: t2 =>
            let s2 := byte_val c2 in
            if negb (cont s2) then (RuneError, 1%nat)
            else if (sz <=? 3)%nat then
              (Z.lor (Z.lor (Z.shiftl (Z.land s0 0x0F) 12)
                            (Z.shiftl (Z.land s1 0x3F) 6))
                     (Z.land s2 0x3F), 3%nat)
            else
              match t2 with
              | [] => (RuneError, 1%nat)
              | c3 :: _ =>
                let s3 := byte_val c3 in
                if negb (cont s3) then (RuneError, 1%nat)
                else
                  (Z.lor (Z.lor (Z.lor (Z.shiftl (Z.land s0 0x07) 18)
                                       (Z.shiftl (Z.land s1 0x3F) 12))
                                (Z.shiftl (Z.land s2 0x3F) 6))
                         (Z.land s3 0x3F), 4%nat)
              end
          end
      end
    end
  end.

(** [for _, r := range str]: the runes of [str] in order. Every step
    consumes at least one byte, so [length s] steps are enough. *)
Fixpoint runes_from (fuel : nat) (s : list byte) : list Z :=
  match fuel with
  | O => []
  | S fuel' =>
    match s with
    | [] => []
    | _ :: _ =>
      let '(r, size) := decode s in
      r :: runes_from fuel' (drop size s)
    end
  end.

Definition runes (str : string) : list Z :=
  let s := list_ascii_of_string str in
  runes_from (length s) s.

(** [utf8.ValidString]: no position of [s] decodes to the encoding
    error [(RuneError, 1)]. *)
Fixpoint valid_from (fuel : nat) (s : list byte) : bool :=
  match fuel with
  | O => true
  | S fuel' =>
    match s with
    | [] => true
    | _ :: _ =>
      let '(r, size) := decode s in
      if (r =? RuneError) && (size =? 1)%nat then false
      else valid_from fuel' (drop size s)
    end
  end.

Definition ValidString (str : string) : bool :=
  let s := list_ascii_of_string str in
  valid_from (length s) s.

End utf8.

(** ** The fragment of package regexp in use

    The syntax covers what [IntegerFormat] and [DecimalFormat] are
    written with: the anchors [^] and [$] (no flag is set, so they
    match at the beginning and at the end of the text only), character
    classes, concatenation, alternation and bounded repetition
    [r{lo,hi}] ([r?] is [r{0,1}]). *)
Module regexp.

Inductive Regexp : Type :=
| Empty
| Bol
| Eol
| Class (ranges : list (byte * byte))
| Cat (r1 r2 : Regexp)
| Alt (r1 r2 : Regexp)
| Rep (r : Regexp) (lo hi : nat).

Definition Lit (c : byte) : Regexp := Class [(c, c)].
Definition Opt (r : Regexp) : Regexp := Rep r 0 1.

Fixpoint in_class (ranges : list (byte * byte)) (c : byte) : bool :=
  match ranges with
  | [] => false
  | (lo, hi) :: rest =>
    ((byte_val lo <=? byte_val c) && (byte_val c <=? byte_val hi))
    || in_class rest c
  end.

(** A matcher in continuation style: [bol] tells whether the position
    is the beginning of the text, [k] is what has to match after. *)
Definition matcher : Type :=
  bool -> list byte -> (bool -> list byte -> bool) -> bool.

Fixpoint rep (m : matcher) (lo hi : nat) : matcher :=
  fun bol s k =>
  match hi with
  | O => match lo with O => k bol s | S _ => false end
  | S hi' =>
    match lo with O => k bol s | S _ => false end
    || m bol s (fun b t => rep m (Nat.pred lo) hi' b t k)
  end.

Fixpoint matchk (r : Regexp) : matcher :=
  fun bol s k =>
  match r with
  | Empty => k bol s
  | Bol => bol && k bol s
  | Eol => match s with [] => k bol s | _ :: _ => false end
  | Class ranges =>
    match s with
    | [] => false
    | c :: t => in_class ranges c && k false t
    end
  | Cat r1 r2 => matchk r1 bol s (fun b t => matchk r2 b t k)
  | Alt r1 r2 => matchk r1 bol s k || matchk r2 bol s k
  | Rep r1 lo hi => rep (matchk r1) lo hi bol s k
  end.

(** [Regexp.Match]: is there a match starting at some position of
    the text? *)
Fixpoint search (r : Regexp) (bol : bool) (s : list byte) : bool :=
  matchk r bol s (fun _ _ => true)
  || match s with
     | [] => false
     | _ :: t => search r false t
     end.

Definition Match (r : Regexp) (b : list byte) : bool := search r true b.

End regexp.

(** ** Package schema: the kind registry *)

Module schema.

Definition Kind : Type := Z.

(** The [const ( ... iota ... )] block, in declaration order. *)
Definition InvalidKind : Kind := 0.
Definition StringKind : Kind := 1.
Definition BytesKind : Kind := 2.
Definition Int8Kind : Kind := 3.
Definition Uint8Kind : Kind := 4.
Definition Int16Kind : Kind := 5.
Definition Uint16Kind : Kind := 6.
Definition Int32Kind : Kind := 7.
Definition Uint32Kind : Kind := 8.
Definition Int64Kind : Kind := 9.
Definition Uint64Kind : Kind := 10.
Definition IntegerStringKind : Kind := 11.
Definition DecimalStringKind : Kind := 12.
Definition BoolKind : Kind := 13.
Definition TimeKind : Kind := 14.
Definition DurationKind : Kind := 15.
Definition Float32Kind : Kind := 16.
Definition Float64Kind : Kind := 17.
Definition AddressKind : Kind := 18.
Definition EnumKind : Kind := 19.
Definition JSONKind : Kind := 20.
Definition UIntNKind : Kind := 21.
Definition IntNKind : Kind := 22.
Definition StructKind : Kind := 23.
Definition OneOfKind : Kind := 24.
Definition ListKind : Kind := 25.

Definition MAX_VALID_KIND : Kind := JSONKind.

(** [func (t Kind) Validate() error] *)
Definition Validate (t : Kind) : error :=
  if t <=? InvalidKind then Errorf ("unknown type: " +:+ fmt.d t)
  else if t >? JSONKind then Errorf ("invalid type: " +:+ fmt.d t)
  else ok.

(** [func (t Kind) String() string]; a Go [switch] tries its cases in
    order, comparing [t] with each constant. *)
Definition String (t : Kind) : string :=
  if t =? StringKind then "string"
  else if t =? BytesKind then "bytes"
  else if t =? Int8Kind then "int8"
  else if t =? Uint8Kind then "uint8"
  else if t =? Int16Kind then "int16"
  else if t =? Uint16Kind then "uint16"
  else if t =? Int32Kind then "int32"
  else if t =? Uint32Kind then "uint32"
  else if t =? Int64Kind then "int64"
  else if t =? Uint64Kind then "uint64"
  else if t =? DecimalStringKind then "decimal"
  else if t =? IntegerStringKind then "integer"
  else if t =? BoolKind then "bool"
  else if t =? TimeKind then "time"
  else if t =? DurationKind then "duration"
  else if t =? Float32Kind then "float32"
  else if t =? Float64Kind then "float64"
  else if t =? AddressKind then "address"
  else if t =? EnumKind then "enum"
  else if t =? JSONKind then "json"
  else "invalid(" +:+ fmt.d t +:+ ")".

(** [func (t Kind) ValidKeyKind() bool] *)
Definition ValidKeyKind (t : Kind) : bool :=
  if (t =? Float32Kind) || (t =? Float64Kind) || (t =? JSONKind)
  then false
  else true.

(** [var kindStrings = map[string]Kind{}] as filled by [init]:
    [for i := InvalidKind + 1; i <= MAX_VALID_KIND; i++
       { kindStrings[i.String()] = i }]. *)
Definition init_step (m : gmap string Kind) (i : Kind) : gmap string Kind :=
  <[String i := i]> m.

Definition kindStrings : gmap string Kind :=
  foldl init_step ∅ (seqZ (InvalidKind + 1) (MAX_VALID_KIND - InvalidKind)).

(** The type assertions [value.(string)], [value.([]byte)], ...: is
    the dynamic type of [value] the asserted one? *)
Definition is_string (value : GoValue) : bool :=
  match value with VString _ => true | _ => false end.
Definition is_bytes (value : GoValue) : bool :=
  match value with VBytes _ => true | _ => false end.
Definition is_int8 (value : GoValue) : bool :=
  match value with VInt8 _ => true | _ => false end.
Definition is_uint8 (value : GoValue) : bool :=
  match value with VUint8 _ => true | _ => false end.
Definition is_int16 (value : GoValue) : bool :=
  match value with VInt16 _ => true | _ => false end.
Definition is_uint16 (value : GoValue) : bool :=
  match value with VUint16 _ => true | _ => false end.
Definition is_int32 (value : GoValue) : bool :=
  match value with VInt32 _ => true | _ => false end.
Definition is_uint32 (value : GoValue) : bool :=
  match value with VUint32 _ => true | _ => false end.
Definition is_int64 (value : GoValue) : bool :=
  match value with VInt64 _ => true | _ => false end.
Definition is_uint64 (value : GoValue) : bool :=
  match value with VUint64 _ => true | _ => false end.
Definition is_float32 (value : GoValue) : bool :=
  match value with VFloat32 _ => true | _ => false end.
Definition is_float64 (value : GoValue) : bool :=
  match value with VFloat64 _ => true | _ => false end.
Definition is_bool (value : GoValue) : bool :=
  match value with VBool _ => true | _ => false end.
Definition is_Time (value : GoValue) : bool :=
  match value with VTime _ => true | _ => false end.
Definition is_Duration (value : GoValue) : bool :=
  match value with VDuration _ => true | _ => false end.
Definition is_RawMessage (value : GoValue) : bool :=
  match value with VRawMessage _ => true | _ => false end.

(** One case of [ValidateValueType]: [_, ok := value.(T); if !ok
    { return fmt.Errorf("expected T, got %T", value) }]; control then
    leaves the [switch] and the function returns [nil]. *)
Definition expect (asserted : GoValue -> bool) (name : string)
    (value : GoValue) : error :=
  if asserted value then ok
  else Errorf ("expected " +:+ name +:+ ", got " +:+ fmt.T value).

(** [func (t Kind) ValidateValueType(value interface{}) error] *)
Definition ValidateValueType (t : Kind) (value : GoValue) : error :=
  if t =? StringKind then expect is_string "string" value
  else if t =? BytesKind then expect is_bytes "[]byte" value
  else if t =? Int8Kind then expect is_int8 "int8" value
  else if t =? Uint8Kind then expect is_uint8 "uint8" value
  else if t =? Int16Kind then expect is_int16 "int16" value
  else if t =? Uint16Kind then expect is_uint16 "uint16" value
  else if t =? Int32Kind then expect is_int32 "int32" value
  else if t =? Uint32Kind then expect is_uint32 "uint32" value
  else if t =? Int64Kind then expect is_int64 "int64" value
  else if t =? Uint64Kind then expect is_uint64 "uint64" value
  else if t =? IntegerStringKind then expect is_string "string" value
  else if t =? DecimalStringKind then expect is_string "string" value
  else if t =? BoolKind then expect is_bool "bool" value
  else if t =? TimeKind then expect is_Time "time.Time" value
  else if t =? DurationKind then expect is_Duration "time.Duration" value
  else if t =? Float32Kind then expect is_float32 "float32" value
  else if t =? Float64Kind then expect is_float64 "float64" value
  else if t =? AddressKind then expect is_bytes "[]byte" value
  else if t =? EnumKind then expect is_string "string" value
  else if t =? JSONKind then expect is_RawMessage "json.RawMessage" value
  else Errorf ("invalid type: " +:+ fmt.d t).

(** [IntegerFormat] is [^-?[0-9]{1,100}$] and [DecimalFormat] is
    [^-?[0-9]{1,50}(\.[0-9]{1,50})?([eE][-+]?[0-9]{1,2})?$]. *)
Definition digits (lo hi : nat) : regexp.Regexp :=
  regexp.Rep (regexp.Class [("0"%char, "9"%char)]) lo hi.

Definition IntegerFormat : regexp.Regexp :=
  regexp.Cat regexp.Bol
    (regexp.Cat (regexp.Opt (regexp.Lit "-"%char))
       (regexp.Cat (digits 1 100) regexp.Eol)).

Definition DecimalFormat : regexp.Regexp :=
  regexp.Cat regexp.Bol
    (regexp.Cat (regexp.Opt (regexp.Lit "-"%char))
       (regexp.Cat (digits 1 50)
          (regexp.Cat
             (regexp.Opt (regexp.Cat (regexp.Lit "."%char) (digits 1 50)))
             (regexp.Cat
                (regexp.Opt
                   (regexp.Cat
                      (regexp.Class [("e"%char, "e"%char);
                                     ("E"%char, "E"%char)])
                      (regexp.Cat
                         (regexp.Opt
                            (regexp.Class [("-"%char, "-"%char);
                                           ("+"%char, "+"%char)]))
                         (digits 1 2))))
                regexp.Eol)))).

(** [regexp.MustCompile] of the two formats. *)
Definition integerRegex : regexp.Regexp := IntegerFormat.
Definition decimalRegex : regexp.Regexp := DecimalFormat.

(** The string a value holds, as [value.(string)] gives it once
    [ValidateValueType] has accepted the value; the bytes likewise. *)
Definition as_string (value : GoValue) : string :=
  match value with VString s => s | _ => "" end.

Definition as_RawMessage (value : GoValue) : list byte :=
  match value with VRawMessage b => b | _ => [] end.

(** [for _, r := range str { if r == 0 { return ... } }] *)
Definition has_null_rune (str : string) : bool :=
  existsb (fun r => r =? 0) (utf8.runes str).

Section encoding_json.

(** Package encoding/json is outside the repository: its functions are
    parameters. [json_Unmarshal data] stands for
    [var s string; err := json.Unmarshal(data, &s)] and gives [s] and
    [err]. *)
Variable json_Valid : list byte -> bool.
Variable json_Marshal : string -> list byte * error.
Variable json_Unmarshal : list byte -> string * error.

(** [func (t Kind) ValidateValue(value interface{}) error] *)
Definition ValidateValue (t : Kind) (value : GoValue) : error :=
  match ValidateValueType t value with
  | Errorf msg => Errorf msg
  | ok =>
    if t =? StringKind then
      let str := as_string value in
      if negb (utf8.ValidString str) then
        Errorf ("expected valid utf-8 string, got " +:+ fmt.s value)
      else if has_null_rune str then
        Errorf ("expected string without null characters, got " +:+ fmt.s value)
      else ok
    else if t =? IntegerStringKind then
      if negb (regexp.Match integerRegex
                 (list_ascii_of_string (as_string value)))
      then Errorf ("expected base10 integer, got " +:+ fmt.s value)
      else ok
    else if t =? DecimalStringKind then
      if negb (regexp.Match decimalRegex
                 (list_ascii_of_string (as_string value)))
      then Errorf ("expected decimal number, got " +:+ fmt.s value)
      else ok
    else if t =? JSONKind then
      if negb (json_Valid (as_RawMessage value))
      then Errorf ("expected valid JSON, got " +:+ fmt.s value)
      else ok
    else ok
  end.

(** [func (t Kind) MarshalJSON() ([]byte, error)] *)
Definition MarshalJSON (t : Kind) : list byte * error :=
  match Validate t with
  | Errorf msg => ([], Errorf msg)
  | ok => json_Marshal (String t)
  end.

(** [func (t *Kind) UnmarshalJSON(data []byte) error]: the kind [*t]
    holds after the call, and the error. *)
Definition UnmarshalJSON (t : Kind) (data : list byte) : Kind * error :=
  let '(str, err) := json_Unmarshal data in
  match err with
  | Errorf msg => (t, Errorf msg)
  | ok =>
    match kindStrings !! str with
    | None => (t, Errorf ("invalid kind: " +:+ str))
    | Some k => (k, ok)
    end
  end.

End encoding_json.

(** [func KindForGoValue(value interface{}) Kind] *)
Definition KindForGoValue (value : GoValue) : Kind :=
  match value with
  | VString _ => StringKind
  | VBytes _ => BytesKind
  | VInt8 _ => Int8Kind
  | VUint8 _ => Uint8Kind
  | VInt16 _ => Int16Kind
  | VUint16 _ => Uint16Kind
  | VInt32 _ => Int32Kind
  | VUint32 _ => Uint32Kind
  | VInt64 _ => Int64Kind
  | VUint64 _ => Uint64Kind
  | VFloat32 _ => Float32Kind
  | VFloat64 _ => Float64Kind
  | VBool _ => BoolKind
  | VTime _ => TimeKind
  | VDuration _ => DurationKind
  | VRawMessage _ => JSONKind
  | VNil | VOther _ => InvalidKind
  end.

End schema.

(** ** Package appdatatest: the conformance simulator *)

Module appdatatest.

(** Modelled from the spec: the declarations of packages schema and
    appdata that the simulator uses and that are not among the sources.
    An object update carries the name of its object type, its key, its
    value and a deletion flag; a packet is one of the variants of the
    protocol, of which [ObjectUpdateData] tags an update with the name
    of its module and [StartBlockData] carries the height. *)
Record ObjectUpdate : Type := {
  TypeName : string;
  Key : GoValue;
  Value : GoValue;
  Delete : bool
}.

Record ObjectUpdateData : Type := {
  ModuleName : string;
  Update : ObjectUpdate
}.

Record StartBlockData : Type := { Height : Z }.

Inductive Packet : Type :=
| PInitializationData (hasEventAlignedWrites : bool)
| PModuleInitializationData (moduleName : string)
| PStartBlockData (data : StartBlockData)
| PObjectUpdateData (data : ObjectUpdateData)
| PCommitData.

(** [type BlockData = []appdata.Packet] *)
Definition BlockData : Type := list Packet.

(** What the simulator calls: the callbacks of the listener and
    [ApplyUpdate] of the state model. *)
Inductive Call : Type :=
| CallStartBlock (data : StartBlockData)
| CallSendPacket (packet : Packet)
| CallApplyUpdate (moduleName : string) (update : ObjectUpdate)
| CallCommit.

(** A call with the error it returned. *)
Definition Event : Type := Call * error.

Definition uint64_modulus : Z := 2 ^ 64.

Section Simulator.

(** The state a listener keeps between calls, and the state of the
    reference model [statesim.App] (the package is not among the
    sources). A callback or method takes the state and gives the new
    state with its error. *)
Variable ListenerState : Type.
Variable App : Type.

(** Modelled from the spec: [appdata.Listener]. [StartBlock] and
    [Commit] are callbacks that may be nil; [SendPacket] hands a packet
    to the listener. *)
Record Listener : Type := {
  StartBlock : option (StartBlockData -> ListenerState -> ListenerState * error);
  SendPacket : Packet -> ListenerState -> ListenerState * error;
  Commit : option (ListenerState -> ListenerState * error)
}.

Variable ApplyUpdate : string -> ObjectUpdate -> App -> App * error.

(** [type Simulator struct]: [state] is what [a.state] points to,
    [listener] the state of [a.options.Listener], whose callbacks are
    [options]. *)
Record Simulator : Type := {
  state : App;
  options : Listener;
  listener : ListenerState;
  blockNum : Z
}.

(** The loop [for _, packet := range data] of [ProcessBlockData]: the
    states of the listener and of the model when the loop is left, the
    error it is left with ([ok] when it runs to the end) and the calls
    made, in order. *)
Fixpoint send_packets (l : Listener) (data : BlockData)
    (ls : ListenerState) (st : App)
    : ListenerState * App * error * list Event :=
  match data with
  | [] => (ls, st, ok, [])
  | packet :: rest =>
    let '(ls1, err) := SendPacket l packet ls in
    let sent := (CallSendPacket packet, err) in
    match err with
    | Errorf _ => (ls1, st, err, [sent])
    | ok =>
      match packet with
      | PObjectUpdateData updateData =>
        let '(st1, err1) :=
          ApplyUpdate (ModuleName updateData) (Update updateData) st in
        let applied :=
          (CallApplyUpdate (ModuleName updateData) (Update updateData), err1) in
        match err1 with
        | Errorf _ => (ls1, st1, err1, [sent; applied])
        | ok =>
          let '(ls2, st2, err2, calls) := send_packets l rest ls1 st1 in
          (ls2, st2, err2, sent :: applied :: calls)
        end
      | _ =>
        let '(ls2, st2, err2, calls) := send_packets l rest ls1 st in
        (ls2, st2, err2, sent :: calls)
      end
    end
  end.

(** [func (a *Simulator) ProcessBlockData(data BlockData) error]: the
    simulator after the call, the error returned and the calls made. *)
Definition ProcessBlockData (a : Simulator) (data : BlockData)
    : Simulator * error * list Event :=
  let n := (blockNum a + 1) mod uint64_modulus in
  let l := options a in
  let '(ls0, err0, calls0) :=
    match StartBlock l with
    | Some f =>
      let '(ls, err) := f {| Height := n |} (listener a) in
      (ls, err, [(CallStartBlock {| Height := n |}, err)])
    | None => (listener a, ok, [])
    end in
  match err0 with
  | Errorf _ =>
    ({| state := state a; options := l; listener := ls0; blockNum := n |},
     err0, calls0)
  | ok =>
    let '(ls1, st1, err1, calls1) := send_packets l data ls0 (state a) in
    match err1 with
    | Errorf _ =>
      ({| state := st1; options := l; listener := ls1; blockNum := n |},
       err1, calls0 ++ calls1)
    | ok =>
      match Commit l with
      | Some f =>
        let '(ls2, err2) := f ls1 in
        ({| state := st1; options := l; listener := ls2; blockNum := n |},
         err2, calls0 ++ calls1 ++ [(CallCommit, err2)])
      | None =>
        ({| state := st1; options := l; listener := ls1; blockNum := n |},
         ok, calls0 ++ calls1)
      end
    end
  end.

(** The state of the model once the updates of [data] are applied in
    order. *)
Fixpoint apply_updates (data : BlockData) (st : App) : App :=
  match data with
  | [] => st
  | PObjectUpdateData updateData :: rest =>
    apply_updates rest
      (fst (ApplyUpdate (ModuleName updateData) (Update updateData) st))
  | _ :: rest => apply_updates rest st
  end.

End Simulator.

Arguments StartBlock {ListenerState} _.
Arguments SendPacket {ListenerState} _ _ _.
Arguments Commit {ListenerState} _.
Arguments state {ListenerState App} _.
Arguments options {ListenerState App} _.
Arguments listener {ListenerState App} _.
Arguments blockNum {ListenerState App} _.
Arguments send_packets {ListenerState App} ApplyUpdate l data ls st.
Arguments ProcessBlockData {ListenerState App} ApplyUpdate a data.
Arguments apply_updates {App} ApplyUpdate data st.

(** The packets handed to [SendPacket] and the updates handed to
    [ApplyUpdate] in a list of calls. *)
Definition sent_packets (calls : list Event) : list Packet :=
  omap (fun ev => match fst ev with
                  | CallSendPacket packet => Some packet
                  | _ => None
                  end) calls.

Definition applied_updates (calls : list Event) : list ObjectUpdateData :=
  omap (fun ev => match fst ev with
                  | CallApplyUpdate m u => Some {| ModuleName := m; Update := u |}
                  | _ => None
                  end) calls.

Definition updates_of (data : BlockData) : list ObjectUpdateData :=
  omap (fun packet => match packet with
                      | PObjectUpdateData updateData => Some updateData
                      | _ => None
                      end) data.

Definition is_commit (ev : Event) : bool :=
  match fst ev with CallCommit => true | _ => false end.

(** *** The generator of block data

    Package rapid is outside the repository. A generator is run on
    random data, given here as what the generators underneath draw:
    - [rapid.IntRange(min, max)] turns a random number into a value of
      [[min, max]], and panics when [max < min];
    - [g.Filter(fn)] draws from [g] a bounded number of times and gives
      the first value that [fn] accepts; when there is none the draw
      is given up and no value is generated. *)

Definition IntRange_Draw (min max : Z) (random : Z) : option Z :=
  if max <? min then None
  else Some (min + random mod (max - min + 1)).

Definition Filter_Draw {V : Type} (fn : V -> bool) (tries : list V)
    : option V :=
  List.find fn tries.

(** The random data of one run of the generator: the number behind
    [numUpdates] and, for the draw labelled [update[i]], the values
    that [a.state.UpdateGen()] gives in the successive tries. *)
Record Random : Type := {
  random_numUpdates : Z;
  random_updates : nat -> list ObjectUpdateData
}.

Section BlockDataGen.

(** The verb [%v] on a key. *)
Variable fmt_v : GoValue -> string.

(** [fmt.Sprintf("%s:%v", update.ModuleName, update.Update.Key)] *)
Definition update_key (update : ObjectUpdateData) : string :=
  ModuleName update +:+ ":" +:+ fmt_v (Key (Update update)).

(** [_, existing := updateSet[key]] *)
Definition existing (updateSet : gmap string bool) (key : string) : bool :=
  match updateSet !! key with Some _ => true | None => false end.

(** The loop [for i := 0; i < numUpdates; i++], with [count] rounds
    left; the filter of [updateGen] reads [updateSet] as it is when
    the draw is made. *)
Fixpoint draw_updates (rnd : nat -> list ObjectUpdateData) (i count : nat)
    (updateSet : gmap string bool) (packets : BlockData)
    : option BlockData :=
  match count with
  | O => Some packets
  | S count' =>
    match Filter_Draw
            (fun update => negb (existing updateSet (update_key update)))
            (rnd i) with
    | None => None
    | Some update =>
      draw_updates rnd (S i) count'
        (<[update_key update := true]> updateSet)
        (packets ++ [PObjectUpdateData update])
    end
  end.

(** [func (a *Simulator) BlockDataGenN(maxUpdatesPerBlock int)]: the
    block the generator gives on the random data [rnd], if any. *)
Definition BlockDataGenN (maxUpdatesPerBlock : Z) (rnd : Random)
    : option BlockData :=
  match IntRange_Draw 1 maxUpdatesPerBlock (random_numUpdates rnd) with
  | None => None
  | Some numUpdates =>
    draw_updates (random_updates rnd) 0 (Z.to_nat numUpdates) ∅ []
  end.

End BlockDataGen.

End appdatatest.

(** ** Notions the statements are written with *)

Module spec.

(** A string of lower-case letters and digits, as the names of the
    kinds are. *)
Definition plain_byte (c : byte) : bool :=
  ((byte_val "a"%char <=? byte_val c) && (byte_val c <=? byte_val "z"%char))
  || ((byte_val "0"%char <=? byte_val c) && (byte_val c <=? byte_val "9"%char)).

Definition plain (str : string) : bool :=
  forallb plain_byte (list_ascii_of_string str).

(** The grammar of integer strings in words: an optional minus sign,
    then between 1 and 100 decimal digits, and nothing else. *)
Definition is_digit (c : byte) : bool :=
  existsb (Ascii.eqb c)
    ["0"; "1"; "2"; "3"; "4"; "5"; "6"; "7"; "8"; "9"]%char.

Definition unsigned_integer (b : list byte) : bool :=
  (1 <=? length b)%nat && (length b <=? 100)%nat && forallb is_digit b.

Definition integer_string (str : string) : bool :=
  match list_ascii_of_string str with
  | c :: t =>
    if Ascii.eqb c "-"%char then unsigned_integer t
    else unsigned_integer (c :: t)
  | [] => false
  end.

(** The character NUL. *)
Definition NUL : byte := Ascii.zero.

(** A string of [n] times the character [c]. *)
Fixpoint repeat_char (c : byte) (n : nat) : string :=
  match n with
  | O => EmptyString
  | S n' => String.String c (repeat_char c n')
  end.

End spec.

(** ** Instances used to run the definitions *)

Module examples.

Import appdatatest.

(** A codec for JSON strings that need no escape: [quote] puts the
    string between double quotes, [unquote] takes them off and refuses
    anything else. *)
Definition dquote : byte := Ascii.ascii_of_nat 34.
Definition backslash : byte := Ascii.ascii_of_nat 92.

Definition quote (str : string) : list byte * error :=
  (dquote :: list_ascii_of_string str ++ [dquote], ok).

Fixpoint unquote_body (l : list byte) : option (list byte) :=
  match l with
  | [] => None
  | c :: t =>
    if Ascii.eqb c dquote then
      match t with [] => Some [] | _ :: _ => None end
    else if Ascii.eqb c backslash then None
    else option_map (cons c) (unquote_body t)
  end.

Definition unquote (data : list byte) : string * error :=
  match data with
  | c :: t =>
    if Ascii.eqb c dquote then
      match unquote_body t with
      | Some body => (string_of_list_ascii body, ok)
      | None => ("", Errorf "invalid character")
      end
    else ("", Errorf "invalid character")
  | [] => ("", Errorf "unexpected end of JSON input")
  end.

(** A validity check that accepts every input. *)
Definition any_json (data : list byte) : bool := true.

(** A listener that counts the packets it is sent and fails on the
    second one; its [StartBlock] and [Commit] succeed. *)
Definition second_fails : Listener nat := {|
  StartBlock := Some (fun _ n => (n, ok));
  SendPacket := fun _ n =>
    (S n, if (n =? 1)%nat then Errorf "second packet refused" else ok);
  Commit := Some (fun n => (n, ok))
|}.

(** A listener whose [StartBlock] fails. *)
Definition start_fails : Listener nat := {|
  StartBlock := Some (fun _ n => (n, Errorf "start refused"));
  SendPacket := fun _ n => (S n, ok);
  Commit := Some (fun n => (n, ok))
|}.

(** A state model that keeps the updates applied, latest first. *)
Definition log_update (moduleName : string) (update : ObjectUpdate)
    (st : list ObjectUpdateData) : list ObjectUpdateData * error :=
  ({| ModuleName := moduleName; Update := update |} :: st, ok).

Definition bank_update (key : Z) : ObjectUpdateData := {|
  ModuleName := "bank";
  Update := {| TypeName := "balance"; Key := VInt64 key;
               Value := VUint64 100; Delete := false |}
|}.

Definition three_packets : BlockData :=
  [PObjectUpdateData (bank_update 1);
   PObjectUpdateData (bank_update 2);
   PObjectUpdateData (bank_update 3)].

Definition sim0 (l : Listener nat) : Simulator nat (list ObjectUpdateData) :=
  {| state := []; options := l; listener := 0%nat; blockNum := 6 |}.

(** A rendering of keys: integers in decimal, everything else by the
    name of its type. *)
Definition show_key (key : GoValue) : string :=
  match key with
  | VInt64 n => fmt.d n
  | _ => fmt.T key
  end.

(** Random data in which the second draw first repeats the key of the
    first one. *)
Definition rnd0 : Random := {|
  random_numUpdates := 7;
  random_updates := fun i =>
    match i with
    | O => [bank_update 1]
    | S O => [bank_update 1; bank_update 2]
    | _ => [bank_update 1; bank_update 2; bank_update 3]
    end
|}.

End examples.

(** ** Further notions the statements are written with *)

Module spec2.

Import schema.

(** The kind whose Go type the values of a kind have: the kinds backed
    by a string go with [StringKind], [AddressKind] with [BytesKind],
    every other kind with itself. *)
Definition native_kind (t : Kind) : Kind :=
  if (t =? IntegerStringKind) || (t =? DecimalStringKind) || (t =? EnumKind)
  then StringKind
  else if t =? AddressKind then BytesKind
  else t.

End spec2.

Module grammar.

(** Between [lo] and [hi] decimal digits. *)
Definition digits_between (lo hi : nat) (b : list byte) : Prop :=
  (lo <= length b <= hi)%nat /\ forallb spec.is_digit b = true.

(** The grammar of decimal strings in words: an optional minus sign, 1
    to 50 digits, optionally a point with 1 to 50 digits, optionally
    an exponent made of [e] or [E], an optional sign and 1 or 2
    digits; and nothing else. *)
Definition sign (b : list byte) : Prop := b = [] \/ b = ["-"%char].

Definition fraction (b : list byte) : Prop :=
  b = [] \/ exists f, b = "."%char :: f /\ digits_between 1 50 f.

Definition exponent (b : list byte) : Prop :=
  b = [] \/
  exists e sg ds,
    b = e :: sg ++ ds /\
    (e = "e"%char \/ e = "E"%char) /\
    (sg = [] \/ sg = ["-"%char] \/ sg = ["+"%char]) /\
    digits_between 1 2 ds.

Definition decimal_string (str : string) : Prop :=
  exists s i f e : list byte,
    list_ascii_of_string str = s ++ i ++ f ++ e /\
    sign s /\ digits_between 1 50 i /\ fraction f /\ exponent e.

(** [accepts r P Q]: when what follows [r] matches the texts of [P],
    [r] with what follows matches the texts of [Q]. *)
Definition accepts (r : regexp.Regexp) (P Q : list byte -> Prop) : Prop :=
  forall k : bool -> list byte -> bool,
    (forall b t, k b t = true <-> P t) ->
    forall b s, regexp.matchk r b s k = true <-> Q s.

End grammar.

Module trace.

Import appdatatest.

(** [halts calls err]: the calls of [calls] all returned [nil] but
    possibly the last one, and [err] is what the last one returned if
    that is an error, and [nil] otherwise. *)
Inductive halts : list Event -> error -> Prop :=
| halts_nil : halts [] ok
| halts_error (call : Call) (msg : string) :
    halts [(call, Errorf msg)] (Errorf msg)
| halts_cons (call : Call) (calls : list Event) (err : error) :
    halts calls err -> halts ((call, ok) :: calls) err.

Definition is_start (ev : Event) : bool :=
  match fst ev with CallStartBlock _ => true | _ => false end.

End trace.

(** ** Package appdatatest: the constructor of the simulator *)

Module simulator.

Section NewSimulator.

(** Packages statesim and schematesting are not among the sources:
    the type of the module schemas, the options of the state model,
    [schematesting.ExampleAppSchema] and [statesim.NewApp] are
    parameters. A Go map that may be nil is an [option]. *)
Variable ListenerState App ModuleSchema Options : Type.
Variable ExampleAppSchema : gmap string ModuleSchema.
Variable NewApp : gmap string ModuleSchema -> Options -> App.

(** [type SimulatorOptions struct] *)
Record SimulatorOptions : Type := {
  AppSchema : option (gmap string ModuleSchema);
  Listener : appdatatest.Listener ListenerState;
  EventAlignedWrites : bool;
  StateSimOptions : Options
}.

(** [func NewSimulator(options SimulatorOptions) *Simulator]; [ls] is
    the state the callbacks of the listener start in. The fields left
    out of the composite literal have their zero value. *)
Definition NewSimulator (options : SimulatorOptions) (ls : ListenerState)
    : appdatatest.Simulator ListenerState App :=
  let schema :=
    match AppSchema options with
    | None => ExampleAppSchema
    | Some appSchema => appSchema
    end in
  {| appdatatest.state := NewApp schema (StateSimOptions options);
     appdatatest.options := Listener options;
     appdatatest.listener := ls;
     appdatatest.blockNum := 0 |}.

End NewSimulator.

Arguments AppSchema {ListenerState ModuleSchema Options} _.
Arguments Listener {ListenerState ModuleSchema Options} _.
Arguments EventAlignedWrites {ListenerState ModuleSchema Options} _.
Arguments StateSimOptions {ListenerState ModuleSchema Options} _.
Arguments NewSimulator {ListenerState App ModuleSchema Options}
  ExampleAppSchema NewApp options ls.

End simulator.

(** ** Package runtime: the store keys of a module *)

Module runtime.

(** The messages [runtimev2.StoreKeyConfig] and [runtimev2.Module] are
    generated code that is not among the sources; they are given the
    fields that the functions below read. *)
Record StoreKeyConfig : Type := {
  ModuleName : string;
  KvStoreKey : string
}.

Record Module : Type := {
  SkipStoreKeys : list string;
  OverrideStoreKeys : list StoreKeyConfig
}.

(** The store services handed to a module: [failingStoreService{}],
    [stf.NewKVStoreService(actor)] and [stf.NewMemoryStoreService(actor)]. *)
Inductive StoreService : Type :=
| failingStoreService
| NewKVStoreService (actor : list byte)
| NewMemoryStoreService (actor : list byte).

(** [func storeKeyOverride(config, moduleName) *StoreKeyConfig]: the
    loop over [config.OverrideStoreKeys]; [None] is the nil pointer. *)
Fixpoint storeKeyOverride_loop (cfgs : list StoreKeyConfig)
    (moduleName : string) : option StoreKeyConfig :=
  match cfgs with
  | [] => None
  | cfg :: rest =>
    if String.eqb (ModuleName cfg) moduleName then Some cfg
    else storeKeyOverride_loop rest moduleName
  end.

Definition storeKeyOverride (config : Module) (moduleName : string)
    : option StoreKeyConfig :=
  storeKeyOverride_loop (OverrideStoreKeys config) moduleName.

(** [func registerStoreKey(builder, key)], on [builder.app.storeKeys]. *)
Definition registerStoreKey (storeKeys : list string) (key : string)
    : list string :=
  storeKeys ++ [key].

(** [slices.Contains] on strings. *)
Definition Contains (s : list string) (v : string) : bool :=
  existsb (String.eqb v) s.

(** [func ProvideEnvironment]: what it does to [builder.app.storeKeys]
    and the two store services it returns, for the module [name]
    ([key.Name()]). The environment it returns besides holds these two
    services and others that do not depend on the configuration. *)
Definition ProvideEnvironment (config : Module) (name : string)
    (storeKeys : list string)
    : list string * StoreService * StoreService :=
  if negb (Contains (SkipStoreKeys config) name) then
    let kvStoreKey :=
      match storeKeyOverride config name with
      | Some override => KvStoreKey override
      | None => name
      end in
    let storeKeys1 := registerStoreKey storeKeys kvStoreKey in
    let kvService := NewKVStoreService (list_ascii_of_string kvStoreKey) in
    let memStoreKey := "memory:" +:+ name in
    let storeKeys2 := registerStoreKey storeKeys1 memStoreKey in
    let memKvService :=
      NewMemoryStoreService (list_ascii_of_string memStoreKey) in
    (storeKeys2, kvService, memKvService)
  else (storeKeys, failingStoreService, failingStoreService).

End runtime.

(** ** Further instances used to run the definitions *)

Module examples2.

Import appdatatest.

(** A listener with every callback set that accepts everything. *)
Definition accepts_all : Listener nat := {|
  StartBlock := Some (fun _ n => (n, ok));
  SendPacket := fun _ n => (S n, ok);
  Commit := Some (fun n => (n, ok))
|}.

(** A listener whose [Commit] fails. *)
Definition commit_fails : Listener nat := {|
  StartBlock := Some (fun _ n => (n, ok));
  SendPacket := fun _ n => (S n, ok);
  Commit := Some (fun n => (n, Errorf "commit refused"))
|}.

(** A state model that keeps the updates applied, latest first, and
    refuses the update of key 2 after recording it. *)
Definition refuse_key_2 (moduleName : string) (update : ObjectUpdate)
    (st : list ObjectUpdateData) : list ObjectUpdateData * error :=
  ({| ModuleName := moduleName; Update := update |} :: st,
   match Key update with
   | VInt64 2 => Errorf "update refused"
   | _ => ok
   end).

(** Options of a simulator with no schema given, over a state model
    that starts with no update applied. *)
Definition options0 : simulator.SimulatorOptions nat unit unit := {|
  simulator.AppSchema := None;
  simulator.Listener := accepts_all;
  simulator.EventAlignedWrites := true;
  simulator.StateSimOptions := tt
|}.

Definition no_updates (appSchema : gmap string unit) (o : unit)
    : list ObjectUpdateData := [].

End examples2.

(** Random data in which round [i] offers the updates of the keys 1
    to [i + 1]. *)
Module examples3.

Import appdatatest.


(** A configuration that overrides the store key of [bank] twice and
    skips the store of [upgrade]. *)
Definition config0 : runtime.Module := {|
  runtime.SkipStoreKeys := ["upgrade"];
  runtime.OverrideStoreKeys :=
    [{| runtime.ModuleName := "auth"; runtime.KvStoreKey := "acc" |};
     {| runtime.ModuleName := "bank"; runtime.KvStoreKey := "bank2" |};
     {| runtime.ModuleName := "bank"; runtime.KvStoreKey := "bank3" |}]
|}.

End examples3.

(** * Properties of the kind registry *)

Import schema.

(** Every kind between [StringKind] and [JSONKind] is one of the
    twenty of the list [seqZ 1 20]: a property of them all can be
    checked kind by kind. *)
Lemma implemented_kinds (P : Kind -> Prop) :
  Forall P (seqZ 1 20) ->
  forall k : Kind, 0 < k <= MAX_VALID_KIND -> P k.
Proof.
  intros HP k Hk. rewrite Forall_forall in HP. apply HP.
  apply elem_of_seqZ. unfold MAX_VALID_KIND, JSONKind in Hk. lia.
Qed.

Ltac each_kind :=
  vm_compute seqZ; repeat (apply Forall_cons; split); try (constructor; fail).

Lemma Validate_ok_iff (k : Kind) :
  Validate k = ok <-> 0 < k <= MAX_VALID_KIND.
Proof.
  unfold Validate, MAX_VALID_KIND, InvalidKind, JSONKind.
  destruct (Z.leb_spec k 0); [split; [discriminate | lia] |].
  destruct (k >? 20) eqn:Hgt.
  - split; [discriminate | intros ?; apply Z.gtb_lt in Hgt; lia].
  - split; [intros _ | reflexivity].
    assert (~ 20 < k) by (rewrite <- Z.gtb_lt; congruence). lia.
Qed.

(** C2: [Validate] returns an error on the identifier 0 and on every
    identifier above [MAX_VALID_KIND] (which is [JSONKind]), and no
    error on the identifiers strictly between 0 and the maximum; more
    precisely it returns no error exactly on the identifiers of
    [(0, MAX_VALID_KIND]]. *)
Theorem Validate_range (k : Kind) :
  MAX_VALID_KIND = JSONKind /\
  (is_err (Validate k) = true <-> k <= 0 \/ MAX_VALID_KIND < k) /\
  (Validate k = ok <-> 0 < k <= MAX_VALID_KIND) /\
  is_err (Validate 0) = true.
Proof.
  split; [reflexivity |]. split; [| split; [apply Validate_ok_iff | reflexivity]].
  pose proof (Validate_ok_iff k) as Hok.
  destruct (Validate k) eqn:Hv; simpl.
  - split; [discriminate | intros ?; assert (0 < k <= MAX_VALID_KIND) by (apply Hok; reflexivity); lia].
  - split; [intros _ | reflexivity].
    destruct (Z.le_gt_cases k 0); [left; assumption |].
    destruct (Z.le_gt_cases k MAX_VALID_KIND); [| right; assumption].
    assert (Errorf msg = ok) by (apply Hok; lia). discriminate.
Qed.

(** C5: [ValidKeyKind] is false exactly on [Float32Kind], [Float64Kind]
    and [JSONKind], and true on every other value of [Kind]. *)
Theorem ValidKeyKind_false_iff (k : Kind) :
  (ValidKeyKind k = false <->
   k = Float32Kind \/ k = Float64Kind \/ k = JSONKind) /\
  (ValidKeyKind k = true <->
   k <> Float32Kind /\ k <> Float64Kind /\ k <> JSONKind).
Proof.
  unfold ValidKeyKind.
  destruct (Z.eqb_spec k Float32Kind), (Z.eqb_spec k Float64Kind),
    (Z.eqb_spec k JSONKind); simpl; intuition congruence.
Qed.

(** The table [kindStrings] is the inverse of [String] on the
    implemented kinds: it holds their names and nothing else. *)
Lemma kindStrings_String (k : Kind) :
  0 < k <= MAX_VALID_KIND -> kindStrings !! String k = Some k.
Proof.
  revert k. apply implemented_kinds. each_kind; vm_compute; reflexivity.
Qed.

Lemma kindStrings_inv (str : string) (k : Kind) :
  kindStrings !! str = Some k -> 0 < k <= MAX_VALID_KIND /\ String k = str.
Proof.
  intros Hl.
  assert (Hin : (str, k) ∈ map_to_list kindStrings)
    by (apply elem_of_map_to_list; exact Hl).
  assert (Hall : Forall (fun p : string * Kind =>
                           0 < p.2 <= MAX_VALID_KIND /\ String p.2 = p.1)
                        (map_to_list kindStrings)).
  { vm_compute map_to_list.
    repeat (apply Forall_cons; split;
            [split; [vm_compute; split; [reflexivity | discriminate]
                    | vm_compute; reflexivity] |]).
    constructor. }
  rewrite list.Forall_forall in Hall. exact (Hall _ Hin).
Qed.

Lemma String_inj_implemented (k k' : Kind) :
  0 < k <= MAX_VALID_KIND -> 0 < k' <= MAX_VALID_KIND ->
  String k = String k' -> k = k'.
Proof.
  intros Hk Hk' Heq.
  pose proof (kindStrings_String k Hk) as H1.
  pose proof (kindStrings_String k' Hk') as H2.
  rewrite Heq in H1. congruence.
Qed.

Lemma String_plain (k : Kind) :
  0 < k <= MAX_VALID_KIND -> spec.plain (String k) = true.
Proof.
  revert k. apply implemented_kinds. each_kind; vm_compute; reflexivity.
Qed.

Section name_round_trip.

(** What is assumed of package encoding/json: a string of lower-case
    letters and digits is marshalled without error, and unmarshalling
    the result gives the string back. *)
Variable json_Marshal : string -> list byte * error.
Variable json_Unmarshal : list byte -> string * error.
Hypothesis json_round_trip : forall str : string,
  spec.plain str = true ->
  exists data, json_Marshal str = (data, ok) /\
               json_Unmarshal data = (str, ok).

(** C1: for every implemented kind [k] (an identifier of
    [(0, MAX_VALID_KIND]]), [Validate] succeeds, [MarshalJSON] gives the
    JSON string of the name [String k], and [UnmarshalJSON] applied to
    it stores [k] again, whatever kind was stored before; the names of
    two different implemented kinds are different. *)
Theorem kind_name_round_trip (k t0 : Kind) :
  0 < k <= MAX_VALID_KIND ->
  Validate k = ok /\
  (exists data,
     json_Marshal (String k) = (data, ok) /\
     MarshalJSON json_Marshal k = (data, ok) /\
     UnmarshalJSON json_Unmarshal t0 data = (k, ok)) /\
  (forall k' : Kind,
     0 < k' <= MAX_VALID_KIND -> String k' = String k -> k' = k).
Proof.
  intros Hk.
  assert (Hv : Validate k = ok) by (apply Validate_ok_iff; exact Hk).
  split; [exact Hv |]. split.
  - destruct (json_round_trip (String k) (String_plain k Hk))
      as (data & Hm & Hu).
    exists data. split; [exact Hm |]. split.
    + unfold MarshalJSON. rewrite Hv. exact Hm.
    + unfold UnmarshalJSON. rewrite Hu, (kindStrings_String k Hk).
      reflexivity.
  - intros k' Hk' Heq. exact (String_inj_implemented k' k Hk' Hk Heq).
Qed.

End name_round_trip.

(** The codec [quote]/[unquote] has the property assumed of
    encoding/json. *)
Lemma unquote_body_plain (b : list byte) :
  forallb spec.plain_byte b = true ->
  examples.unquote_body (b ++ [examples.dquote]) = Some b.
Proof.
  induction b as [| c b IH]; simpl; [reflexivity |].
  intros Hb. apply andb_true_iff in Hb as [Hc Hb].
  destruct (Ascii.eqb_spec c examples.dquote) as [-> | _];
    [vm_compute in Hc; discriminate |].
  destruct (Ascii.eqb_spec c examples.backslash) as [-> | _];
    [vm_compute in Hc; discriminate |].
  rewrite (IH Hb). reflexivity.
Qed.

Lemma quote_round_trip (str : string) :
  spec.plain str = true ->
  exists data, examples.quote str = (data, ok) /\
               examples.unquote data = (str, ok).
Proof.
  intros Hp.
  exists (examples.dquote :: list_ascii_of_string str ++ [examples.dquote]).
  split; [reflexivity |].
  unfold examples.unquote. rewrite Ascii.eqb_refl.
  rewrite (unquote_body_plain _ Hp), string_of_list_ascii_of_string.
  reflexivity.
Qed.

Lemma kind_name_round_trip_witness :
  0 < Int64Kind <= MAX_VALID_KIND /\
  Validate Int64Kind = ok /\
  (exists data,
     examples.quote (String Int64Kind) = (data, ok) /\
     MarshalJSON examples.quote Int64Kind = (data, ok) /\
     UnmarshalJSON examples.unquote InvalidKind data = (Int64Kind, ok)) /\
  (forall k' : Kind,
     0 < k' <= MAX_VALID_KIND -> String k' = String Int64Kind ->
     k' = Int64Kind).
Proof.
  assert (H : 0 < Int64Kind <= MAX_VALID_KIND) by (vm_compute; split; [reflexivity | discriminate]).
  split; [exact H |].
  exact (kind_name_round_trip examples.quote examples.unquote
           quote_round_trip Int64Kind InvalidKind H).
Defined.

(** C8: [KindForGoValue] gives each supported Go type its own kind,
    never gives [IntegerStringKind], [DecimalStringKind], [AddressKind]
    or [EnumKind], and gives [InvalidKind] exactly on the values of the
    other types (the nil interface included). *)
Theorem KindForGoValue_table :
  (forall s, KindForGoValue (VString s) = StringKind) /\
  (forall b, KindForGoValue (VBytes b) = BytesKind) /\
  (forall n, KindForGoValue (VInt8 n) = Int8Kind) /\
  (forall n, KindForGoValue (VUint8 n) = Uint8Kind) /\
  (forall n, KindForGoValue (VInt16 n) = Int16Kind) /\
  (forall n, KindForGoValue (VUint16 n) = Uint16Kind) /\
  (forall n, KindForGoValue (VInt32 n) = Int32Kind) /\
  (forall n, KindForGoValue (VUint32 n) = Uint32Kind) /\
  (forall n, KindForGoValue (VInt64 n) = Int64Kind) /\
  (forall n, KindForGoValue (VUint64 n) = Uint64Kind) /\
  (forall x, KindForGoValue (VFloat32 x) = Float32Kind) /\
  (forall x, KindForGoValue (VFloat64 x) = Float64Kind) /\
  (forall b, KindForGoValue (VBool b) = BoolKind) /\
  (forall t, KindForGoValue (VTime t) = TimeKind) /\
  (forall n, KindForGoValue (VDuration n) = DurationKind) /\
  (forall b, KindForGoValue (VRawMessage b) = JSONKind) /\
  (forall v, KindForGoValue v <> IntegerStringKind /\
             KindForGoValue v <> DecimalStringKind /\
             KindForGoValue v <> AddressKind /\
             KindForGoValue v <> EnumKind) /\
  (forall v, KindForGoValue v = InvalidKind <->
             v = VNil \/ exists typeName, v = VOther typeName) /\
  (forall v w, KindForGoValue v = KindForGoValue w ->
               KindForGoValue v = InvalidKind \/ fmt.T v = fmt.T w).
Proof.
  repeat (split; [reflexivity |]).
  split; [| split].
  - intros v. destruct v; vm_compute; repeat split; discriminate.
  - intros v. split.
    + destruct v; try (vm_compute; discriminate); intros _;
        [left; reflexivity | right; eexists; reflexivity].
    + intros [-> | [typeName ->]]; reflexivity.
  - intros v w.
    destruct v; try (left; reflexivity);
      destruct w; try (vm_compute; discriminate); right; reflexivity.
Qed.

(** C10: a value whose inferred kind is not [InvalidKind] passes
    [ValidateValueType] at the inferred kind. *)
Theorem inferred_kind_accepts (v : GoValue) :
  KindForGoValue v <> InvalidKind ->
  ValidateValueType (KindForGoValue v) v = ok.
Proof.
  destruct v; intros Hk; try reflexivity; exfalso; apply Hk; reflexivity.
Qed.

Lemma inferred_kind_accepts_witness :
  KindForGoValue (VRawMessage []) <> InvalidKind /\
  ValidateValueType (KindForGoValue (VRawMessage [])) (VRawMessage []) = ok.
Proof.
  assert (H : KindForGoValue (VRawMessage []) <> InvalidKind)
    by (vm_compute; discriminate).
  split; [exact H | exact (inferred_kind_accepts (VRawMessage []) H)].
Defined.

(** * Deep validation of integer strings *)

Section regexp_facts.

Import regexp.

(** A pattern that starts with [^] matches nowhere but at the
    beginning of the text. *)
Lemma search_Bol_later (r : Regexp) (s : list byte) :
  search (Cat Bol r) false s = false.
Proof. induction s as [| c t IH]; simpl; [reflexivity | exact IH]. Qed.

Lemma Match_anchored (r : Regexp) (s : list byte) :
  Match (Cat Bol r) s = matchk r true s (fun _ _ => true).
Proof.
  unfold Match. destruct s as [| c t]; simpl.
  - apply orb_false_r.
  - rewrite search_Bol_later. apply orb_false_r.
Qed.

Lemma matchk_Opt (r : Regexp) (bol : bool) (s : list byte)
    (k : bool -> list byte -> bool) :
  matchk (Opt r) bol s k = k bol s || matchk r bol s k.
Proof. reflexivity. Qed.

(** Between [lo] and [hi] characters of a class up to the end of the
    text. *)
Lemma rep_Class_end (ranges : list (byte * byte))
    (k : bool -> list byte -> bool) :
  (forall b t, k b t = match t with [] => true | _ :: _ => false end) ->
  forall (hi lo : nat) (bol : bool) (s : list byte),
    rep (matchk (Class ranges)) lo hi bol s k
    = (lo <=? length s)%nat && (length s <=? hi)%nat
      && forallb (in_class ranges) s.
Proof.
  intros Hk. induction hi as [| hi IH]; intros lo bol s.
  - simpl. destruct lo as [| lo], s as [| c t]; simpl;
      rewrite ?Hk, ?andb_false_r; reflexivity.
  - destruct s as [| c t].
    + destruct lo as [| lo]; simpl; rewrite ?Hk; reflexivity.
    + change (rep (matchk (Class ranges)) lo (S hi) bol (c :: t) k)
        with (match lo with O => k bol (c :: t) | S _ => false end
              || (in_class ranges c
                  && rep (matchk (Class ranges)) (Nat.pred lo) hi false t k)).
      rewrite IH, Hk. simpl length. simpl forallb.
      destruct lo as [| lo]; simpl;
        destruct (in_class ranges c); simpl;
        rewrite ?andb_false_r; reflexivity.
Qed.

Lemma in_class_digit (c : byte) :
  in_class [("0"%char, "9"%char)] c = spec.is_digit c.
Proof. destruct c as [[] [] [] [] [] [] [] []]; reflexivity. Qed.

Lemma in_class_minus (c : byte) :
  in_class [("-"%char, "-"%char)] c = Ascii.eqb c "-".
Proof. destruct c as [[] [] [] [] [] [] [] []]; reflexivity. Qed.

Lemma digits_Eol (lo hi : nat) (bol : bool) (s : list byte) :
  matchk (Cat (digits lo hi) Eol) bol s (fun _ _ => true)
  = (lo <=? length s)%nat && (length s <=? hi)%nat
    && forallb spec.is_digit s.
Proof.
  change (matchk (Cat (digits lo hi) Eol) bol s (fun _ _ => true))
    with (rep (matchk (Class [("0"%char, "9"%char)])) lo hi bol s
            (fun b t => matchk Eol b t (fun _ _ => true))).
  rewrite rep_Class_end by (intros b [| c t]; reflexivity).
  f_equal. induction s as [| c t IH]; cbn [forallb]; [reflexivity |].
  rewrite in_class_digit, IH. reflexivity.
Qed.

(** [integerRegex.Match] decides the grammar of integer strings. *)
Lemma integerRegex_Match (str : string) :
  Match integerRegex (list_ascii_of_string str) = spec.integer_string str.
Proof.
  unfold integerRegex, IntegerFormat, spec.integer_string.
  rewrite Match_anchored.
  change (matchk (Cat (Opt (Lit "-")) (Cat (digits 1 100) Eol)) true
            (list_ascii_of_string str) (fun _ _ => true))
    with (matchk (Opt (Lit "-")) true (list_ascii_of_string str)
            (fun b t => matchk (Cat (digits 1 100) Eol) b t (fun _ _ => true))).
  rewrite matchk_Opt, digits_Eol.
  destruct (list_ascii_of_string str) as [| c t].
  - reflexivity.
  - change (matchk (Lit "-") true (c :: t)
              (fun b t0 => matchk (Cat (digits 1 100) Eol) b t0 (fun _ _ => true)))
      with (in_class [("-"%char, "-"%char)] c
            && matchk (Cat (digits 1 100) Eol) false t (fun _ _ => true)).
    rewrite in_class_minus, digits_Eol.
    unfold spec.unsigned_integer.
    destruct (Ascii.eqb_spec c "-") as [-> | Hc].
    + simpl forallb.
      replace (spec.is_digit "-") with false by reflexivity.
      rewrite andb_false_r. reflexivity.
    + rewrite andb_false_l, orb_false_r. reflexivity.
Qed.

(** [decimalRegex.Match] on some inputs: a sign, a fraction and an
    exponent are accepted; a missing integer part, a missing fraction
    after the point and an exponent of three digits are not. *)
Example decimalRegex_examples :
  map (fun str => Match decimalRegex (list_ascii_of_string str))
    ["0"; "-12.50"; "1.5e-10"; "3E+7"; ".5"; "1."; "1e100"; "1.5x"; ""]%string
  = [true; true; true; true; false; false; false; false; false].
Proof. vm_compute. reflexivity. Qed.

End regexp_facts.

(** * Deep validation of strings *)

Lemma byte_val_bounds (c : byte) : 0 <= byte_val c < 256.
Proof. unfold byte_val. pose proof (N_ascii_bounded c). lia. Qed.

Lemma byte_val_NUL (c : byte) : byte_val c = 0 <-> c = spec.NUL.
Proof.
  split; [| intros ->; reflexivity].
  unfold byte_val. intros H.
  assert (H0 : N_of_ascii c = 0%N) by lia.
  rewrite <- (ascii_N_embedding c), H0. reflexivity.
Qed.

Lemma high_byte_not_NUL (c : byte) : 0x80 <= byte_val c -> c <> spec.NUL.
Proof. intros H Hc. apply byte_val_NUL in Hc. lia. Qed.

(** What the table [first] says of a leading byte. *)
Lemma first_cases (b : Z) :
  0 <= b < 256 ->
  match utf8.first b with
  | utf8.ASCII => b < 0x80
  | utf8.Illegal => 0x80 <= b
  | utf8.Multi sz lo hi =>
    0xC2 <= b /\ 0x80 <= lo /\
    ((sz = 2%nat /\ b mod 32 <> 0)
     \/ (sz = 3%nat /\ (b mod 16 <> 0 \/ 0xA0 <= lo /\ hi <= 0xBF))
     \/ (sz = 4%nat /\ (b mod 8 <> 0 \/ 0x90 <= lo /\ hi <= 0xBF)))
  end.
Proof.
  intros Hb. unfold utf8.first, utf8.locb, utf8.hicb.
  repeat match goal with
         | |- context [if ?c then _ else _] => destruct c eqn:?
         end;
    Z.to_euclidean_division_equations; lia.
Qed.

Lemma masked_zero (b m k : Z) (n : Z) :
  m = Z.ones n -> 0 <= n -> 0 <= k ->
  Z.shiftl (Z.land b m) k = 0 -> b mod 2 ^ n = 0.
Proof.
  intros -> Hn Hk H. apply Z.shiftl_eq_0_iff in H; [| exact Hk].
  rewrite Z.land_ones in H by exact Hn. exact H.
Qed.

(** A rune is 0 only when it is decoded from the single byte NUL, and
    no byte of a longer sequence is NUL. *)
Lemma decode_NUL (c0 : byte) (t : list byte) (r : Z) (size : nat) :
  utf8.decode (c0 :: t) = (r, size) ->
  (1 <= size <= S (length t))%nat /\
  (r = 0 <-> In spec.NUL (take size (c0 :: t))).
Proof.
  assert (Herr : 0x80 <= byte_val c0 ->
                 (utf8.RuneError, 1%nat) = (r, size) ->
                 (1 <= size <= S (length t))%nat /\
                 (r = 0 <-> In spec.NUL (take size (c0 :: t)))).
  { intros Hc [= <- <-]. split; [lia |]. simpl.
    split; [discriminate |].
    intros [H | []]. destruct (high_byte_not_NUL c0 Hc H). }
  unfold utf8.decode.
  pose proof (first_cases (byte_val c0) (byte_val_bounds c0)) as Hf.
  destruct (utf8.first (byte_val c0)) as [| | sz lo hi].
  - intros [= <- <-]. split; [lia |]. simpl. rewrite byte_val_NUL.
    split; [intros ->; left; reflexivity | intros [H | []]; exact H].
  - apply Herr. exact Hf.
  - destruct Hf as (Hc0 & Hlo & Hsz).
    destruct t as [| c1 t1]; [apply Herr; lia |].
    destruct ((byte_val c1 <? lo) || (hi <? byte_val c1)) eqn:H1;
      [apply Herr; lia |].
    apply orb_false_iff in H1 as [H1a H1b].
    pose proof (byte_val_bounds c1) as Hb1.
    destruct (sz <=? 2)%nat eqn:Hs2.
    { intros [= <- <-]. split; [simpl; lia |]. split.
      - intros H. exfalso. apply Z.lor_eq_0_iff in H as [H _].
        apply (masked_zero _ _ _ 5) in H; [| reflexivity | lia | lia].
        change (2 ^ 5) with 32 in H. apply Nat.leb_le in Hs2. lia.
      - simpl. intros [H | [H | []]]; exfalso;
          [apply (high_byte_not_NUL c0) | apply (high_byte_not_NUL c1)];
          (exact H || lia). }
    destruct t1 as [| c2 t2]; [apply Herr; lia |].
    unfold utf8.cont, utf8.locb, utf8.hicb.
    destruct ((0x80 <=? byte_val c2) && (byte_val c2 <=? 0xBF)) eqn:H2;
      [| apply Herr; lia].
    apply andb_true_iff in H2 as [H2a H2b]. cbn [negb].
    destruct (sz <=? 3)%nat eqn:Hs3.
    { intros [= <- <-]. split; [simpl; lia |]. split.
      - intros H. exfalso. apply Z.lor_eq_0_iff in H as [H _].
        apply Z.lor_eq_0_iff in H as [Ha Hb].
        apply (masked_zero _ _ _ 4) in Ha; [| reflexivity | lia | lia].
        apply (masked_zero _ _ _ 6) in Hb; [| reflexivity | lia | lia].
        change (2 ^ 4) with 16 in Ha. change (2 ^ 6) with 64 in Hb.
        apply Nat.leb_le in Hs3. apply Nat.leb_gt in Hs2.
        Z.to_euclidean_division_equations. lia.
      - simpl. intros [H | [H | [H | []]]]; exfalso;
          [apply (high_byte_not_NUL c0) | apply (high_byte_not_NUL c1)
           | apply (high_byte_not_NUL c2)];
          (exact H || lia). }
    destruct t2 as [| c3 t3]; [apply Herr; lia |].
    destruct ((0x80 <=? byte_val c3) && (byte_val c3 <=? 0xBF)) eqn:H3;
      [| apply Herr; lia].
    apply andb_true_iff in H3 as [H3a H3b]. cbn [negb].
    intros [= <- <-]. split; [simpl; lia |]. split.
    + intros H. exfalso. apply Z.lor_eq_0_iff in H as [H _].
      apply Z.lor_eq_0_iff in H as [H _].
      apply Z.lor_eq_0_iff in H as [Ha Hb].
      apply (masked_zero _ _ _ 3) in Ha; [| reflexivity | lia | lia].
      apply (masked_zero _ _ _ 6) in Hb; [| reflexivity | lia | lia].
      change (2 ^ 3) with 8 in Ha. change (2 ^ 6) with 64 in Hb.
      apply Nat.leb_gt in Hs3. apply Nat.leb_gt in Hs2.
      Z.to_euclidean_division_equations. lia.
    + simpl. intros [H | [H | [H | [H | []]]]]; exfalso;
        [apply (high_byte_not_NUL c0) | apply (high_byte_not_NUL c1)
         | apply (high_byte_not_NUL c2) | apply (high_byte_not_NUL c3)];
        (exact H || lia).
Qed.

Lemma runes_from_NUL (fuel : nat) (s : list byte) :
  (length s <= fuel)%nat ->
  In 0 (utf8.runes_from fuel s) <-> In spec.NUL s.
Proof.
  revert s. induction fuel as [| fuel IH]; intros s Hlen.
  - destruct s; [reflexivity | simpl in Hlen; lia].
  - destruct s as [| c0 t]; [reflexivity |].
    cbn [utf8.runes_from].
    destruct (utf8.decode (c0 :: t)) as [r size] eqn:Hd.
    apply decode_NUL in Hd as [Hsize Hr].
    rewrite <- (take_drop size (c0 :: t)) at 2.
    rewrite in_app_iff, <- Hr, <- IH.
    + reflexivity.
    + rewrite length_drop. simpl in *. lia.
Qed.

Lemma has_null_rune_iff (str : string) :
  has_null_rune str = true <-> In spec.NUL (list_ascii_of_string str).
Proof.
  unfold has_null_rune, utf8.runes.
  rewrite <- (runes_from_NUL (length (list_ascii_of_string str))) by lia.
  rewrite existsb_exists. split.
  - intros (r & Hin & Hr). apply Z.eqb_eq in Hr. subst r. exact Hin.
  - intros Hin. exists 0. split; [exact Hin | reflexivity].
Qed.

Section deep_validation.

Variable json_Valid : list byte -> bool.

(** [ValidateValue] at [StringKind] and at [IntegerStringKind], case
    by case. *)
Lemma ValidateValue_StringKind (v : GoValue) :
  ValidateValue json_Valid StringKind v =
  match v with
  | VString str =>
    if negb (utf8.ValidString str) then
      Errorf ("expected valid utf-8 string, got " +:+ str)
    else if has_null_rune str then
      Errorf ("expected string without null characters, got " +:+ str)
    else ok
  | _ => Errorf ("expected string, got " +:+ fmt.T v)
  end.
Proof. destruct v; reflexivity. Qed.

Lemma ValidateValue_IntegerStringKind (v : GoValue) :
  ValidateValue json_Valid IntegerStringKind v =
  match v with
  | VString str =>
    if spec.integer_string str then ok
    else Errorf ("expected base10 integer, got " +:+ str)
  | _ => Errorf ("expected string, got " +:+ fmt.T v)
  end.
Proof.
  destruct v; try reflexivity.
  rewrite <- integerRegex_Match.
  change (ValidateValue json_Valid IntegerStringKind (VString s))
    with (if negb (regexp.Match integerRegex (list_ascii_of_string s))
          then Errorf ("expected base10 integer, got " +:+ s)
          else ok).
  destruct (regexp.Match integerRegex (list_ascii_of_string s)); reflexivity.
Qed.

End deep_validation.

(** C6: [ValidateValue] at [IntegerStringKind] succeeds exactly on the
    strings of the grammar [^-?[0-9]{1,100}$]: an optional minus sign
    and 1 to 100 digits. It accepts 0, -123, a string of 100 digits
    and 01 with its leading zero; it rejects the empty string and every
    string of more than 100 digits. *)
Theorem IntegerString_deep_validation (json_Valid : list byte -> bool) :
  (forall v : GoValue,
     ValidateValue json_Valid IntegerStringKind v = ok <->
     exists str, v = VString str /\ spec.integer_string str = true) /\
  ValidateValue json_Valid IntegerStringKind (VString "0") = ok /\
  ValidateValue json_Valid IntegerStringKind (VString "-123") = ok /\
  ValidateValue json_Valid IntegerStringKind
    (VString (spec.repeat_char "7" 100)) = ok /\
  ValidateValue json_Valid IntegerStringKind (VString "01") = ok /\
  is_err (ValidateValue json_Valid IntegerStringKind (VString "")) = true /\
  (forall str : string,
     (100 < length (list_ascii_of_string str))%nat ->
     forallb spec.is_digit (list_ascii_of_string str) = true ->
     is_err (ValidateValue json_Valid IntegerStringKind (VString str)) = true).
Proof.
  split; [| repeat split;
            try (rewrite ValidateValue_IntegerStringKind; reflexivity)].
  - intros v. rewrite ValidateValue_IntegerStringKind. split.
    + destruct v; try discriminate.
      destruct (spec.integer_string s) eqn:Hs; [| discriminate].
      intros _. exists s. split; [reflexivity | exact Hs].
    + intros (str & -> & Hs). rewrite Hs. reflexivity.
  - intros str Hlen Hdig. rewrite ValidateValue_IntegerStringKind.
    replace (spec.integer_string str) with false; [reflexivity |].
    symmetry. unfold spec.integer_string.
    destruct (list_ascii_of_string str) as [| c t]; [reflexivity |].
    cbn [forallb] in Hdig. apply andb_true_iff in Hdig as [Hc _].
    destruct (Ascii.eqb_spec c "-") as [-> | _]; [discriminate |].
    unfold spec.unsigned_integer.
    replace (length (c :: t) <=? 100)%nat with false
      by (symmetry; apply Nat.leb_gt; exact Hlen).
    rewrite andb_false_r. reflexivity.
Qed.

(** C7: [ValidateValue] at [StringKind] succeeds exactly on the Go
    strings that are valid UTF-8 and hold no NUL; a value that is not a
    string, a string that is not valid UTF-8 and a string with a NUL
    byte each give an error. *)
Theorem String_deep_validation (json_Valid : list byte -> bool) :
  (forall v : GoValue,
     ValidateValue json_Valid StringKind v = ok <->
     exists str, v = VString str /\
                 utf8.ValidString str = true /\
                 ~ In spec.NUL (list_ascii_of_string str)) /\
  (forall v : GoValue,
     is_string v = false ->
     is_err (ValidateValue json_Valid StringKind v) = true) /\
  (forall str : string,
     utf8.ValidString str = false ->
     is_err (ValidateValue json_Valid StringKind (VString str)) = true) /\
  (forall str : string,
     In spec.NUL (list_ascii_of_string str) ->
     is_err (ValidateValue json_Valid StringKind (VString str)) = true).
Proof.
  split; [| split; [| split]].
  - intros v. rewrite ValidateValue_StringKind. split.
    + destruct v; try discriminate.
      destruct (utf8.ValidString s) eqn:Hv; [| discriminate].
      destruct (has_null_rune s) eqn:Hn; [discriminate |].
      intros _. exists s. split; [reflexivity | split; [exact Hv |]].
      intros Hin. apply has_null_rune_iff in Hin. congruence.
    + intros (str & -> & Hv & Hn). rewrite Hv.
      destruct (has_null_rune str) eqn:Hr; [| reflexivity].
      apply has_null_rune_iff in Hr. contradiction.
  - intros v Hs. rewrite ValidateValue_StringKind.
    destruct v; try reflexivity. discriminate.
  - intros str Hv. rewrite ValidateValue_StringKind, Hv. reflexivity.
  - intros str Hin. rewrite ValidateValue_StringKind.
    apply has_null_rune_iff in Hin. rewrite Hin.
    destruct (utf8.ValidString str); reflexivity.
Qed.

(** [ValidString] on some inputs: two-, three- and four-byte
    sequences, an overlong encoding of NUL, a surrogate and a sequence
    cut short. *)
Example ValidString_examples :
  utf8.ValidString "a£€𝄞"%string = true /\
  utf8.ValidString (string_of_list_ascii
                      [ascii_of_nat 192; ascii_of_nat 128]) = false /\
  utf8.ValidString (string_of_list_ascii
                      [ascii_of_nat 237; ascii_of_nat 160; ascii_of_nat 128])
  = false /\
  utf8.ValidString (string_of_list_ascii
                      [ascii_of_nat 226; ascii_of_nat 130]) = false /\
  utf8.runes "a£€𝄞"%string = [97; 163; 8364; 119070].
Proof. repeat split; vm_compute; reflexivity. Qed.

(** * The conformance simulator *)

Section Simulator_facts.

Import appdatatest.

Context {ListenerState App : Type}.
Variable ApplyUpdate : string -> ObjectUpdate -> App -> App * error.

Implicit Types (l : Listener ListenerState) (data : BlockData)
  (ls : ListenerState) (st : App) (calls : list Event)
  (a : Simulator ListenerState App).

(** The loop makes no call of [Commit]; and when a call of
    [SendPacket] returned an error, that call is the last one, the
    loop is left with its error, and what was sent and applied is told
    by the position [i] of the packet. *)
Lemma send_packets_error l data :
  forall ls st ls' st' err calls,
    send_packets ApplyUpdate l data ls st = (ls', st', err, calls) ->
    existsb is_commit calls = false /\
    forall packet msg,
      In (CallSendPacket packet, Errorf msg) calls ->
      err = Errorf msg /\
      last calls = Some (CallSendPacket packet, Errorf msg) /\
      exists i : nat,
        data !! i = Some packet /\
        sent_packets calls = take (S i) data /\
        applied_updates calls = updates_of (take i data) /\
        st' = apply_updates ApplyUpdate (take i data) st.
Proof.
  induction data as [| p rest IH]; intros ls st ls' st' err calls Hrun.
  - injection Hrun as <- <- <- <-. split; [reflexivity | intros ? ? []].
  - cbn [send_packets] in Hrun.
    destruct (SendPacket l p ls) as [ls1 e] eqn:Hsend.
    destruct e as [| m].
    + (* the packet is accepted *)
      destruct p as [aligned | name | sb | updateData |].
      1, 2, 3, 5:
        destruct (send_packets ApplyUpdate l rest ls1 st)
          as [[[ls2 st2] err2] calls2] eqn:Hrest;
        injection Hrun as <- <- <- <-;
        destruct (IH _ _ _ _ _ _ Hrest) as [Hc Herr];
        (split; [exact Hc |]);
        intros packet msg [Hin | Hin]; [discriminate Hin |];
        destruct (Herr packet msg Hin) as (He & Hlast & i & Hi & Hs & Ha & Hst);
        (split; [exact He |]);
        (split; [rewrite last_cons, Hlast; reflexivity |]);
        exists (S i); (split; [exact Hi |]);
        (split; [exact (f_equal (cons _) Hs) |]);
        (split; [exact Ha | exact Hst]).
      destruct (ApplyUpdate (ModuleName updateData) (Update updateData) st)
        as [st1 e1] eqn:Happ.
      destruct e1 as [| m1].
      * destruct (send_packets ApplyUpdate l rest ls1 st1)
          as [[[ls2 st2] err2] calls2] eqn:Hrest.
        injection Hrun as <- <- <- <-.
        destruct (IH _ _ _ _ _ _ Hrest) as [Hc Herr].
        split; [exact Hc |].
        intros packet msg [Hin | [Hin | Hin]]; [discriminate Hin .. |].
        destruct (Herr packet msg Hin) as (He & Hlast & i & Hi & Hs & Ha & Hst).
        split; [exact He |].
        split; [rewrite !last_cons, Hlast; reflexivity |].
        exists (S i). split; [exact Hi |].
        split; [exact (f_equal (cons _) Hs) |].
        split.
        -- change (applied_updates
                     ((CallSendPacket (PObjectUpdateData updateData), ok)
                      :: (CallApplyUpdate (ModuleName updateData)
                            (Update updateData), ok) :: calls2))
             with ({| ModuleName := ModuleName updateData;
                      Update := Update updateData |}
                   :: applied_updates calls2).
           change (updates_of (take (S i) (PObjectUpdateData updateData :: rest)))
             with (updateData :: updates_of (take i rest)).
           rewrite Ha. destruct updateData; reflexivity.
        -- change (apply_updates ApplyUpdate
                     (take (S i) (PObjectUpdateData updateData :: rest)) st)
             with (apply_updates ApplyUpdate (take i rest)
                     (fst (ApplyUpdate (ModuleName updateData)
                             (Update updateData) st))).
           rewrite Happ. exact Hst.
      * injection Hrun as <- <- <- <-. split; [reflexivity |].
        intros packet msg [Hin | [Hin | []]]; discriminate Hin.
    + (* the packet is refused *)
      injection Hrun as <- <- <- <-. split; [reflexivity |].
      intros packet msg [Hin | []]. injection Hin as <- <-.
      split; [reflexivity |]. split; [reflexivity |].
      exists 0%nat. repeat split; reflexivity.
Qed.

(** C4, as the code has it: [ProcessBlockData] adds one to [blockNum]
    (modulo 2^64) before it calls [StartBlock], and the counter keeps
    that value when the call returns, whether the callbacks succeeded
    or one of them returned an error. *)
Theorem ProcessBlockData_advances_blockNum a data :
  blockNum (ProcessBlockData ApplyUpdate a data).1.1
  = (blockNum a + 1) mod uint64_modulus.
Proof.
  unfold ProcessBlockData.
  destruct (StartBlock (options a)) as [f |].
  - destruct (f _ (listener a)) as [ls0 [| m0]]; [| reflexivity].
    destruct (send_packets ApplyUpdate (options a) data ls0 (state a))
      as [[[ls1 st1] [| m1]] calls1]; [| reflexivity].
    destruct (Commit (options a)) as [g |]; [| reflexivity].
    destruct (g ls1) as [ls2 err2]. reflexivity.
  - destruct (send_packets ApplyUpdate (options a) data (listener a) (state a))
      as [[[ls1 st1] [| m1]] calls1]; [| reflexivity].
    destruct (Commit (options a)) as [g |]; [| reflexivity].
    destruct (g ls1) as [ls2 err2]. reflexivity.
Qed.

(** An occurrence of a failed [SendPacket] among calls of which only
    the middle part comes from the loop is in that part. *)
Ltac in_calls H :=
  cbn [In app] in H; rewrite ?in_app_iff in H; cbn [In] in H;
  intuition congruence.

(** C3: when a call of [SendPacket] made by [ProcessBlockData]
    returns an error, on the packet at some position [i] of the block,
    [ProcessBlockData] returns that error and the failing call is the
    last call it makes: [Commit] is not called, the packets sent are
    those up to position [i] and no other, the updates applied to the
    state model are those of the packets before position [i], and the
    state model is the one these updates lead to. *)
Theorem SendPacket_error_aborts_block a data a' err calls :
  ProcessBlockData ApplyUpdate a data = (a', err, calls) ->
  forall packet msg,
    In (CallSendPacket packet, Errorf msg) calls ->
    err = Errorf msg /\
    last calls = Some (CallSendPacket packet, Errorf msg) /\
    existsb is_commit calls = false /\
    exists i : nat,
      data !! i = Some packet /\
      sent_packets calls = take (S i) data /\
      applied_updates calls = updates_of (take i data) /\
      state a' = apply_updates ApplyUpdate (take i data) (state a).
Proof.
  intros Hrun packet msg Hin. unfold ProcessBlockData in Hrun.
  set (n := (blockNum a + 1) mod uint64_modulus) in Hrun.
  assert (Hloop_err : forall ls0 ls1 st1 m1 calls1 (ev0 : list Event),
    send_packets ApplyUpdate (options a) data ls0 (state a)
    = (ls1, st1, Errorf m1, calls1) ->
    In (CallSendPacket packet, Errorf msg) calls1 ->
    sent_packets ev0 = [] -> applied_updates ev0 = [] ->
    existsb is_commit ev0 = false ->
    Errorf m1 = Errorf msg /\
    last (ev0 ++ calls1) = Some (CallSendPacket packet, Errorf msg) /\
    existsb is_commit (ev0 ++ calls1) = false /\
    exists i : nat,
      data !! i = Some packet /\
      sent_packets (ev0 ++ calls1) = take (S i) data /\
      applied_updates (ev0 ++ calls1) = updates_of (take i data) /\
      st1 = apply_updates ApplyUpdate (take i data) (state a)).
  { intros ls0 ls1 st1 m1 calls1 ev0 Hloop Hin1 Hs0 Ha0 Hc0.
    destruct (send_packets_error _ _ _ _ _ _ _ _ Hloop) as [Hc Herr].
    destruct (Herr _ _ Hin1) as (He & Hlast & i & Hi & Hs & Ha & Hst).
    split; [exact He |].
    split; [rewrite last_app, Hlast; reflexivity |].
    split; [rewrite existsb_app, Hc0, Hc; reflexivity |].
    exists i. split; [exact Hi |].
    unfold sent_packets, applied_updates in *.
    rewrite !omap_app, Hs0, Ha0, Hs, Ha. repeat split. exact Hst. }
  assert (Hloop_ok : forall ls0 ls1 st1 calls1,
    send_packets ApplyUpdate (options a) data ls0 (state a)
    = (ls1, st1, ok, calls1) ->
    ~ In (CallSendPacket packet, Errorf msg) calls1).
  { intros ls0 ls1 st1 calls1 Hloop Hin1.
    destruct (send_packets_error _ _ _ _ _ _ _ _ Hloop) as [_ Herr].
    destruct (Herr _ _ Hin1) as [He _]. discriminate He. }
  destruct (StartBlock (options a)) as [f |].
  - destruct (f _ (listener a)) as [ls0 [| m0]].
    + destruct (send_packets ApplyUpdate (options a) data ls0 (state a))
        as [[[ls1 st1] [| m1]] calls1] eqn:Hloop.
      * exfalso. apply (Hloop_ok _ _ _ _ Hloop).
        destruct (Commit (options a)) as [g |].
        -- destruct (g ls1) as [ls2 err2]. injection Hrun as <- <- <-.
           in_calls Hin.
        -- injection Hrun as <- <- <-. in_calls Hin.
      * injection Hrun as <- <- <-.
        apply (Hloop_err _ _ _ _ _ [_] Hloop); try reflexivity.
        in_calls Hin.
    + injection Hrun as <- <- <-. exfalso. in_calls Hin.
  - destruct (send_packets ApplyUpdate (options a) data (listener a) (state a))
      as [[[ls1 st1] [| m1]] calls1] eqn:Hloop.
    + exfalso. apply (Hloop_ok _ _ _ _ Hloop).
      destruct (Commit (options a)) as [g |].
      * destruct (g ls1) as [ls2 err2]. injection Hrun as <- <- <-.
        in_calls Hin.
      * injection Hrun as <- <- <-. in_calls Hin.
    + injection Hrun as <- <- <-.
      apply (Hloop_err _ _ _ _ _ [] Hloop); try reflexivity. exact Hin.
Qed.

End Simulator_facts.

Import appdatatest.

(** The scenario of a block of three packets of which the listener
    refuses the second. *)
Lemma SendPacket_error_aborts_block_witness :
  let run := ProcessBlockData examples.log_update
               (examples.sim0 examples.second_fails)
               examples.three_packets in
  let failed := (CallSendPacket (PObjectUpdateData (examples.bank_update 2)),
                 Errorf "second packet refused") in
  In failed run.2 /\
  run.1.2 = Errorf "second packet refused" /\
  last run.2 = Some failed /\
  existsb is_commit run.2 = false /\
  exists i : nat,
    examples.three_packets !! i
    = Some (PObjectUpdateData (examples.bank_update 2)) /\
    sent_packets run.2 = take (S i) examples.three_packets /\
    applied_updates run.2 = updates_of (take i examples.three_packets) /\
    state run.1.1
    = apply_updates examples.log_update (take i examples.three_packets) [].
Proof.
  intros run failed.
  assert (Hin : In failed run.2) by (vm_compute; tauto).
  split; [exact Hin |].
  exact (SendPacket_error_aborts_block examples.log_update
           (examples.sim0 examples.second_fails) examples.three_packets
           run.1.1 run.1.2 run.2 eq_refl
           (PObjectUpdateData (examples.bank_update 2))
           "second packet refused" Hin).
Defined.

(** The counter of a simulator whose listener refuses [StartBlock]: 6
    before the call, 7 after it, although the block failed. *)
Lemma blockNum_advanced_on_failed_block :
  let a := examples.sim0 examples.start_fails in
  let run := ProcessBlockData examples.log_update a examples.three_packets in
  run.1.2 = Errorf "start refused" /\
  run.2 = [(CallStartBlock {| Height := 7 |}, Errorf "start refused")] /\
  blockNum a = 6 /\
  blockNum run.1.1 = 7 /\
  blockNum run.1.1 <> blockNum a.
Proof. vm_compute. repeat split; discriminate. Qed.

Section BlockDataGen_facts.

Variable fmt_v : GoValue -> string.

Lemma IntRange_Draw_range (min max random n : Z) :
  IntRange_Draw min max random = Some n -> min <= n <= max.
Proof.
  unfold IntRange_Draw. destruct (Z.ltb_spec max min); [discriminate |].
  intros [= <-].
  pose proof (Z.mod_pos_bound random (max - min + 1)). lia.
Qed.

(** The updates the loop adds: as many as there are rounds, with keys
    that are pairwise different and absent from the set the loop
    started with. *)
Lemma draw_updates_spec (rnd : nat -> list ObjectUpdateData) (count : nat) :
  forall (i : nat) (updateSet : gmap string bool) (packets res : BlockData),
    draw_updates fmt_v rnd i count updateSet packets = Some res ->
    exists updates : list ObjectUpdateData,
      res = packets ++ map PObjectUpdateData updates /\
      length updates = count /\
      NoDup (map (update_key fmt_v) updates) /\
      Forall (fun u => updateSet !! update_key fmt_v u = None) updates.
Proof.
  induction count as [| count IH]; intros i updateSet packets res Hrun.
  - injection Hrun as <-. exists []. rewrite app_nil_r.
    repeat split; constructor.
  - cbn [draw_updates] in Hrun. unfold Filter_Draw in Hrun.
    destruct (find _ (rnd i)) as [update |] eqn:Hfind; [| discriminate].
    apply find_some in Hfind as [_ Hfresh].
    assert (Hnew : updateSet !! update_key fmt_v update = None).
    { unfold existing in Hfresh.
      destruct (updateSet !! update_key fmt_v update); [discriminate | reflexivity]. }
    destruct (IH _ _ _ _ Hrun) as (updates & -> & Hlen & Hnd & Hall).
    exists (update :: updates). split; [| split; [| split]].
    + rewrite <- app_assoc. reflexivity.
    + simpl. rewrite Hlen. reflexivity.
    + cbn [map]. apply NoDup_cons. split; [| exact Hnd].
      intros Hin. apply list_elem_of_In, in_map_iff in Hin as (u & Hu & Hin).
      rewrite list.Forall_forall in Hall.
      apply list_elem_of_In in Hin. specialize (Hall u Hin).
      rewrite Hu, lookup_insert_eq in Hall. discriminate.
    + apply Forall_cons. split; [exact Hnew |].
      eapply Forall_impl; [exact Hall |]. intros u Hu.
      apply lookup_insert_None in Hu as [Hu _]. exact Hu.
Qed.

(** C9: a block that [BlockDataGenN] generates holds [n] packets for
    some [n] of [[1, maxUpdatesPerBlock]], all of them
    [ObjectUpdateData], and their pairs of module name and key are
    pairwise different. *)
Theorem BlockDataGenN_distinct_keys (maxUpdatesPerBlock : Z) (rnd : Random)
    (packets : BlockData) :
  BlockDataGenN fmt_v maxUpdatesPerBlock rnd = Some packets ->
  exists (n : Z) (updates : list ObjectUpdateData),
    1 <= n <= maxUpdatesPerBlock /\
    packets = map PObjectUpdateData updates /\
    Z.of_nat (length packets) = n /\
    Z.of_nat (length updates) = n /\
    NoDup (map (fun u => (ModuleName u, Key (Update u))) updates).
Proof.
  unfold BlockDataGenN.
  destruct (IntRange_Draw 1 maxUpdatesPerBlock (random_numUpdates rnd))
    as [numUpdates |] eqn:Hn; [| discriminate].
  apply IntRange_Draw_range in Hn. intros Hrun.
  apply draw_updates_spec in Hrun as (updates & -> & Hlen & Hnd & _).
  exists numUpdates, updates. split; [exact Hn |].
  split; [reflexivity |]. cbn [app]. rewrite length_map, Hlen.
  split; [lia |]. split; [lia |].
  apply (NoDup_fmap_1 (fun p : string * GoValue => p.1 +:+ ":" +:+ fmt_v p.2)).
  change (NoDup (map (fun p : string * GoValue => p.1 +:+ ":" +:+ fmt_v p.2)
                   (map (fun u => (ModuleName u, Key (Update u))) updates))).
  rewrite map_map. exact Hnd.
Qed.

End BlockDataGen_facts.

Lemma BlockDataGenN_distinct_keys_witness :
  BlockDataGenN examples.show_key 3 examples.rnd0
  = Some [PObjectUpdateData (examples.bank_update 1);
          PObjectUpdateData (examples.bank_update 2)] /\
  exists (n : Z) (updates : list ObjectUpdateData),
    1 <= n <= 3 /\
    [PObjectUpdateData (examples.bank_update 1);
     PObjectUpdateData (examples.bank_update 2)]
    = map PObjectUpdateData updates /\
    Z.of_nat (length [PObjectUpdateData (examples.bank_update 1);
                      PObjectUpdateData (examples.bank_update 2)]) = n /\
    Z.of_nat (length updates) = n /\
    NoDup (map (fun u => (ModuleName u, Key (Update u))) updates).
Proof.
  assert (H : BlockDataGenN examples.show_key 3 examples.rnd0
              = Some [PObjectUpdateData (examples.bank_update 1);
                      PObjectUpdateData (examples.bank_update 2)])
    by (vm_compute; reflexivity).
  split; [exact H |].
  exact (BlockDataGenN_distinct_keys examples.show_key 3 examples.rnd0 _ H).
Defined.

(** * Further properties of the kind registry *)

Lemma list_ascii_of_string_app (s1 s2 : string) :
  list_ascii_of_string (s1 +:+ s2)
  = list_ascii_of_string s1 ++ list_ascii_of_string s2.
Proof. induction s1 as [| c s1 IH]; simpl; [reflexivity | rewrite IH; reflexivity]. Qed.

Lemma list_ascii_of_string_inj (s1 s2 : string) :
  list_ascii_of_string s1 = list_ascii_of_string s2 -> s1 = s2.
Proof.
  intros H. rewrite <- (string_of_list_ascii_of_string s1), H.
  apply string_of_list_ascii_of_string.
Qed.

Lemma append_inj_r (s1 s2 t : string) : s1 +:+ t = s2 +:+ t -> s1 = s2.
Proof.
  intros H. apply list_ascii_of_string_inj.
  apply (f_equal list_ascii_of_string) in H.
  rewrite !list_ascii_of_string_app in H.
  exact (app_inv_tail _ _ _ H).
Qed.

Ltac switch_on_kind :=
  repeat match goal with
         | |- context [Z.eqb ?a ?b] => destruct (Z.eqb_spec a b)
         end.

(** Outside [(0, MAX_VALID_KIND]] the [switch] of [String] and of
    [ValidateValueType] takes the [default] case. *)
Lemma String_default (k : Kind) :
  ~ 0 < k <= MAX_VALID_KIND ->
  String k = "invalid(" +:+ fmt.d k +:+ ")".
Proof.
  intros Hk. unfold String. switch_on_kind; try reflexivity;
    exfalso; apply Hk; subst k; vm_compute; split; congruence.
Qed.

Lemma ValidateValueType_default (k : Kind) (v : GoValue) :
  ~ 0 < k <= MAX_VALID_KIND ->
  ValidateValueType k v = Errorf ("invalid type: " +:+ fmt.d k).
Proof.
  intros Hk. unfold ValidateValueType. switch_on_kind; try reflexivity;
    exfalso; apply Hk; subst k; vm_compute; split; congruence.
Qed.

Lemma String_implemented_shape (k : Kind) :
  0 < k <= MAX_VALID_KIND -> forall rest, String k <> "invalid(" +:+ rest.
Proof.
  revert k.
  apply (implemented_kinds
           (fun k => forall rest, String k <> "invalid(" +:+ rest)).
  each_kind; intros rest H; vm_compute in H; discriminate H.
Qed.

(** X1: [String] is injective on all values of [Kind]: two different
    identifiers never print the same, whether they are implemented
    kinds or are rendered as [invalid(n)]. *)
Theorem String_inj (k k' : Kind) : String k = String k' -> k = k'.
Proof.
  intros Heq.
  destruct (decide (0 < k <= MAX_VALID_KIND)) as [Hk | Hk],
    (decide (0 < k' <= MAX_VALID_KIND)) as [Hk' | Hk'].
  - exact (String_inj_implemented k k' Hk Hk' Heq).
  - rewrite (String_default k' Hk') in Heq.
    destruct (String_implemented_shape k Hk _ Heq).
  - rewrite (String_default k Hk) in Heq. symmetry in Heq.
    destruct (String_implemented_shape k' Hk' _ Heq).
  - rewrite (String_default k Hk), (String_default k' Hk') in Heq.
    apply String.app_inj, append_inj_r in Heq.
    exact (pretty_Z_inj _ _ Heq).
Qed.

Lemma String_inj_witness :
  String 21 = String UIntNKind /\ 21 = UIntNKind.
Proof.
  assert (H : String 21 = String UIntNKind) by reflexivity.
  split; [exact H | exact (String_inj 21 UIntNKind H)].
Defined.

(** X2: the table [kindStrings] that [init] fills is the graph of
    [String] on the implemented kinds: a name is bound to [k] exactly
    when [k] lies in [(0, MAX_VALID_KIND]] and the name is [String k].
    The names [invalid(n)] of the other identifiers are not in it. *)
Theorem kindStrings_graph (str : string) (k : Kind) :
  kindStrings !! str = Some k <->
  0 < k <= MAX_VALID_KIND /\ String k = str.
Proof.
  split.
  - apply kindStrings_inv.
  - intros [Hk <-]. exact (kindStrings_String k Hk).
Qed.

Section UnmarshalJSON_facts.

Variable json_Marshal : string -> list byte * error.
Variable json_Unmarshal : list byte -> string * error.

(** X3: [UnmarshalJSON] either succeeds, and then the kind it stores
    passes [Validate] and has the decoded string as its name, or fails,
    and then the kind stored before is left as it was; it fails on
    every string that is not the name of an implemented kind. *)
Theorem UnmarshalJSON_outcome (t : Kind) (data : list byte) :
  let str := (json_Unmarshal data).1 in
  let result := UnmarshalJSON json_Unmarshal t data in
  (result.2 = ok /\ (json_Unmarshal data).2 = ok /\
   Validate result.1 = ok /\ String result.1 = str)
  \/ (is_err result.2 = true /\ result.1 = t /\
      ((json_Unmarshal data).2 = ok ->
       result.2 = Errorf ("invalid kind: " +:+ str) /\
       forall k, 0 < k <= MAX_VALID_KIND -> String k <> str)).
Proof.
  unfold UnmarshalJSON.
  destruct (json_Unmarshal data) as [str [| msg]]; cbn [fst snd].
  - destruct (kindStrings !! str) as [k |] eqn:Hl; cbn [fst snd].
    + left. apply kindStrings_inv in Hl as [Hk Hs].
      split; [reflexivity |]. split; [reflexivity |].
      split; [apply Validate_ok_iff; exact Hk | exact Hs].
    + right. split; [reflexivity |]. split; [reflexivity |].
      intros _. split; [reflexivity |]. intros k Hk Hs.
      pose proof (kindStrings_String k Hk) as H. rewrite Hs in H.
      enough (@None Kind = Some k) by discriminate.
      rewrite <- Hl. exact H.
  - right. split; [reflexivity |]. split; [reflexivity |]. discriminate.
Qed.

(** X4: marshalling a kind that [UnmarshalJSON] has read marshals the
    name that was read: [MarshalJSON] on it is [json.Marshal] of the
    decoded string, [Validate] standing in its way for no kind that
    comes out of [UnmarshalJSON]. *)
Theorem MarshalJSON_after_UnmarshalJSON (t k : Kind) (data : list byte) :
  UnmarshalJSON json_Unmarshal t data = (k, ok) ->
  MarshalJSON json_Marshal k = json_Marshal (json_Unmarshal data).1.
Proof.
  unfold UnmarshalJSON.
  destruct (json_Unmarshal data) as [str [| msg]]; [| discriminate].
  destruct (kindStrings !! str) as [k0 |] eqn:Hl; [| discriminate].
  intros [= ->]. apply kindStrings_inv in Hl as [Hk Hs].
  unfold MarshalJSON. cbn [fst].
  rewrite (proj2 (Validate_ok_iff k) Hk), Hs. reflexivity.
Qed.

End UnmarshalJSON_facts.

Lemma MarshalJSON_after_UnmarshalJSON_witness :
  let data := (examples.quote "bytes").1 in
  UnmarshalJSON examples.unquote InvalidKind data = (BytesKind, ok) /\
  MarshalJSON examples.quote BytesKind
  = examples.quote (examples.unquote data).1.
Proof.
  intros data.
  assert (H : UnmarshalJSON examples.unquote InvalidKind data = (BytesKind, ok))
    by (vm_compute; reflexivity).
  split; [exact H |].
  exact (MarshalJSON_after_UnmarshalJSON examples.quote examples.unquote
           InvalidKind BytesKind data H).
Defined.

(** * Validation by type and deep validation *)

(** X5: [ValidateValueType] accepts a value at a kind exactly when the
    kind is implemented and the kind inferred for the value is the one
    whose Go type the kind uses: the kind itself, [StringKind] for the
    string-backed kinds and [BytesKind] for addresses. So it refuses
    the nil interface at every kind, and everything at a kind that is
    not implemented. *)
Theorem ValidateValueType_accepts_iff (t : Kind) (v : GoValue) :
  (ValidateValueType t v = ok <->
   Validate t = ok /\ KindForGoValue v = spec2.native_kind t) /\
  is_err (ValidateValueType t VNil) = true.
Proof.
  destruct (decide (0 < t <= MAX_VALID_KIND)) as [Ht | Ht].
  - revert t Ht.
    apply (implemented_kinds
             (fun t =>
                (ValidateValueType t v = ok <->
                 Validate t = ok /\ KindForGoValue v = spec2.native_kind t) /\
                is_err (ValidateValueType t VNil) = true)).
    each_kind;
      (split; [| reflexivity]);
      destruct v; vm_compute;
      (split; [intros H; try discriminate H; split; reflexivity
              | intros [_ H]; try discriminate H; reflexivity]).
  - rewrite !(ValidateValueType_default t _ Ht). split; [| reflexivity].
    split; [discriminate |]. intros [Hv _].
    apply Validate_ok_iff in Hv. contradiction.
Qed.

Section ValidateValue_facts.

Variable json_Valid : list byte -> bool.

(** X6: deep validation refines validation by type. When
    [ValidateValueType] refuses a value, [ValidateValue] returns that
    same error; what [ValidateValue] accepts, [ValidateValueType]
    accepts; and at every kind other than [StringKind],
    [IntegerStringKind], [DecimalStringKind] and [JSONKind] the two
    agree, so that an enum value or an address is checked for its Go
    type only. At [JSONKind] the value has to be a [json.RawMessage]
    that [json.Valid] accepts: valid JSON held in a string or in a
    plain slice of bytes is refused. *)
Theorem ValidateValue_refines (t : Kind) (v : GoValue) :
  (forall msg, ValidateValueType t v = Errorf msg ->
               ValidateValue json_Valid t v = Errorf msg) /\
  (ValidateValue json_Valid t v = ok -> ValidateValueType t v = ok) /\
  (t <> StringKind -> t <> IntegerStringKind ->
   t <> DecimalStringKind -> t <> JSONKind ->
   ValidateValue json_Valid t v = ValidateValueType t v) /\
  (ValidateValue json_Valid JSONKind v = ok <->
   exists b, v = VRawMessage b /\ json_Valid b = true).
Proof.
  split; [| split; [| split]]; cycle 3.
  { split.
    - destruct v; try discriminate. cbn.
      destruct (json_Valid b) eqn:Hb; [| discriminate].
      intros _. exists b. auto.
    - intros (b & -> & Hb). cbn. rewrite Hb. reflexivity. }
  all: unfold ValidateValue.
  - intros msg ->. reflexivity.
  - destruct (ValidateValueType t v); [reflexivity | discriminate].
  - intros H1 H2 H3 H4.
    destruct (ValidateValueType t v); [| reflexivity].
    destruct (Z.eqb_spec t StringKind); [contradiction |].
    destruct (Z.eqb_spec t IntegerStringKind); [contradiction |].
    destruct (Z.eqb_spec t DecimalStringKind); [contradiction |].
    destruct (Z.eqb_spec t JSONKind); [contradiction |].
    reflexivity.
Qed.

End ValidateValue_facts.

(** * Deep validation of decimal strings *)

Section regexp_accepts.

Import regexp grammar.

Lemma accepts_Eol :
  accepts Eol (fun _ => True) (fun s => s = []).
Proof.
  intros k Hk b [| c t]; simpl.
  - rewrite Hk. tauto.
  - split; discriminate.
Qed.

Lemma accepts_Class (ranges : list (byte * byte)) (P : list byte -> Prop) :
  accepts (Class ranges) P
    (fun s => exists c t, s = c :: t /\ in_class ranges c = true /\ P t).
Proof.
  intros k Hk b [| c t]; cbn [matchk].
  - split; [discriminate | intros (c & t & H & _); discriminate H].
  - rewrite andb_true_iff, Hk. split.
    + intros [Hc Ht]. exists c, t. auto.
    + intros (c' & t' & [= -> ->] & Hc & Ht). auto.
Qed.

Lemma accepts_Cat (r1 r2 : Regexp) (P Q R : list byte -> Prop) :
  accepts r2 P Q -> accepts r1 Q R -> accepts (Cat r1 r2) P R.
Proof.
  intros H2 H1 k Hk b s. cbn [matchk].
  apply H1. intros b' t. apply H2. exact Hk.
Qed.

Lemma accepts_Opt (r : Regexp) (P Q : list byte -> Prop) :
  accepts r P Q -> accepts (Opt r) P (fun s => P s \/ Q s).
Proof.
  intros H k Hk b s. rewrite matchk_Opt, orb_true_iff, Hk, (H k Hk). tauto.
Qed.

Lemma accepts_Rep_Class (ranges : list (byte * byte)) (lo hi : nat)
    (P : list byte -> Prop) :
  accepts (Rep (Class ranges) lo hi) P
    (fun s => exists ds rest,
       s = ds ++ rest /\ (lo <= length ds <= hi)%nat /\
       forallb (in_class ranges) ds = true /\ P rest).
Proof.
  intros k Hk b s. cbn [matchk]. revert lo b s.
  induction hi as [| hi IH]; intros lo b s.
  - cbn [rep]. destruct lo as [| lo].
    + rewrite Hk. split.
      * intros HP. exists [], s. repeat split; auto.
      * intros ([| c ds] & rest & -> & [_ Hlen] & _ & HP);
          [exact HP | simpl in Hlen; lia].
    + split; [discriminate |].
      intros (ds & rest & _ & Hlen & _). lia.
  - cbn [rep]. rewrite orb_true_iff. split.
    + intros [H0 | HS].
      * destruct lo as [| lo]; [| discriminate].
        apply Hk in H0. exists [], s. repeat split; simpl; auto; lia.
      * destruct s as [| c t]; [discriminate |].
        cbn [matchk] in HS. apply andb_true_iff in HS as [Hc Hrest].
        apply IH in Hrest as (ds & rest & -> & Hlen & Hds & HP).
        exists (c :: ds), rest. split; [reflexivity |].
        split; [simpl; lia |]. split; [simpl; rewrite Hc; exact Hds | exact HP].
    + intros ([| c ds] & rest & -> & Hlen & Hds & HP).
      * left. destruct lo as [| lo]; [apply Hk; exact HP | simpl in Hlen; lia].
      * right. cbn [app matchk]. simpl in Hds.
        apply andb_true_iff in Hds as [Hc Hds]. rewrite Hc. cbn [andb].
        apply IH. exists ds, rest. split; [reflexivity |].
        split; [simpl in Hlen; lia | auto].
Qed.

Lemma accepts_digits (lo hi : nat) (P : list byte -> Prop) :
  accepts (digits lo hi) P
    (fun s => exists ds rest,
       s = ds ++ rest /\ grammar.digits_between lo hi ds /\ P rest).
Proof.
  intros k Hk b s. unfold digits.
  rewrite (accepts_Rep_Class _ lo hi P k Hk b s).
  assert (Hd : forall ds, forallb (in_class [("0"%char, "9"%char)]) ds
                          = forallb spec.is_digit ds).
  { induction ds as [| c ds IH]; cbn [forallb]; [reflexivity |].
    rewrite in_class_digit, IH. reflexivity. }
  unfold grammar.digits_between.
  split.
  - intros (ds & rest & Hs & Hlen & H & HP). exists ds, rest.
    rewrite Hd in H. auto.
  - intros (ds & rest & Hs & [Hlen H] & HP). exists ds, rest.
    rewrite Hd. auto.
Qed.

Lemma accepts_iff (r : Regexp) (P Q Q' : list byte -> Prop) :
  accepts r P Q -> (forall s, Q s <-> Q' s) -> accepts r P Q'.
Proof. intros H HQ k Hk b s. rewrite <- HQ. exact (H k Hk b s). Qed.

Lemma in_class_point (c : byte) :
  in_class [("."%char, "."%char)] c = true <-> c = "."%char.
Proof.
  replace (in_class [("."%char, "."%char)] c) with (Ascii.eqb c ".")
    by (destruct c as [[] [] [] [] [] [] [] []]; reflexivity).
  apply Ascii.eqb_eq.
Qed.

Lemma in_class_minus_iff (c : byte) :
  in_class [("-"%char, "-"%char)] c = true <-> c = "-"%char.
Proof. rewrite in_class_minus. apply Ascii.eqb_eq. Qed.

Lemma in_class_e (c : byte) :
  in_class [("e"%char, "e"%char); ("E"%char, "E"%char)] c = true
  <-> c = "e"%char \/ c = "E"%char.
Proof.
  replace (in_class [("e"%char, "e"%char); ("E"%char, "E"%char)] c)
    with (Ascii.eqb c "e" || Ascii.eqb c "E")
    by (destruct c as [[] [] [] [] [] [] [] []]; reflexivity).
  rewrite orb_true_iff, !Ascii.eqb_eq. reflexivity.
Qed.

Lemma in_class_sign (c : byte) :
  in_class [("-"%char, "-"%char); ("+"%char, "+"%char)] c = true
  <-> c = "-"%char \/ c = "+"%char.
Proof.
  replace (in_class [("-"%char, "-"%char); ("+"%char, "+"%char)] c)
    with (Ascii.eqb c "-" || Ascii.eqb c "+")
    by (destruct c as [[] [] [] [] [] [] [] []]; reflexivity).
  rewrite orb_true_iff, !Ascii.eqb_eq. reflexivity.
Qed.

(** The exponent and the end of the text. *)
Lemma accepts_exponent :
  accepts
    (Cat (Opt (Cat (Class [("e"%char, "e"%char); ("E"%char, "E"%char)])
                 (Cat (Opt (Class [("-"%char, "-"%char); ("+"%char, "+"%char)]))
                    (digits 1 2))))
       Eol)
    (fun _ => True) exponent.
Proof.
  eapply accepts_iff.
  - eapply accepts_Cat; [apply accepts_Eol |].
    apply accepts_Opt. eapply accepts_Cat; [| apply accepts_Class].
    eapply accepts_Cat; [apply accepts_digits |].
    apply accepts_Opt. apply accepts_Class.
  - intros s. cbv beta. unfold exponent. split.
    + intros [-> | (e & t & -> & He & Ht)]; [left; reflexivity | right].
      apply in_class_e in He.
      destruct Ht as [(ds & rest & -> & Hds & ->)
                     | (c & t' & -> & Hc & ds & rest & -> & Hds & ->)].
      * exists e, [], ds. rewrite app_nil_r. auto.
      * apply in_class_sign in Hc. exists e, [c], ds.
        rewrite app_nil_r. split; [reflexivity |]. split; [exact He |].
        split; [destruct Hc as [-> | ->]; auto | exact Hds].
    + intros [-> | (e & sg & ds & -> & He & Hsg & Hds)];
        [left; reflexivity | right].
      exists e, (sg ++ ds). split; [reflexivity |].
      split; [apply in_class_e; exact He |].
      destruct Hsg as [-> | Hsg].
      * left. exists ds, []. rewrite app_nil_r. auto.
      * right. assert (exists c, sg = [c] /\ (c = "-"%char \/ c = "+"%char))
          as (c & -> & Hc) by (destruct Hsg as [-> | ->]; eauto).
        exists c, ds. split; [reflexivity |].
        split; [apply in_class_sign; exact Hc |].
        exists ds, []. rewrite app_nil_r. auto.
Qed.

(** The fraction, the exponent and the end of the text. *)
Lemma accepts_fraction :
  accepts
    (Cat (Opt (Cat (Lit ".") (digits 1 50)))
       (Cat (Opt (Cat (Class [("e"%char, "e"%char); ("E"%char, "E"%char)])
                    (Cat (Opt (Class [("-"%char, "-"%char); ("+"%char, "+"%char)]))
                       (digits 1 2))))
          Eol))
    (fun _ => True)
    (fun s => exists f e, s = f ++ e /\ fraction f /\ exponent e).
Proof.
  eapply accepts_iff.
  - eapply accepts_Cat; [apply accepts_exponent |].
    apply accepts_Opt. eapply accepts_Cat; [apply accepts_digits |].
    apply accepts_Class.
  - intros s. cbv beta. unfold fraction. split.
    + intros [He | (c & t & -> & Hc & ds & rest & -> & Hds & He)].
      * exists [], s. auto.
      * apply in_class_point in Hc. subst c.
        exists ("."%char :: ds), rest. split; [reflexivity |].
        split; [right; exists ds; auto | exact He].
    + intros (f & e & -> & [-> | (ds & -> & Hds)] & He).
      * left. exact He.
      * right. exists "."%char, (ds ++ e). split; [reflexivity |].
        split; [apply in_class_point; reflexivity |].
        exists ds, e. auto.
Qed.

(** [decimalRegex.Match] decides the grammar of decimal strings. *)
Lemma decimalRegex_Match (str : string) :
  Match decimalRegex (list_ascii_of_string str) = true
  <-> decimal_string str.
Proof.
  unfold decimalRegex, DecimalFormat. rewrite Match_anchored.
  assert (Hk : forall (b : bool) (t : list byte),
                 (fun (_ : bool) (_ : list byte) => true) b t = true <-> True)
    by (intros; tauto).
  assert (Hacc : accepts
    (Cat (Opt (Lit "-"))
       (Cat (digits 1 50)
          (Cat (Opt (Cat (Lit ".") (digits 1 50)))
             (Cat (Opt (Cat (Class [("e"%char, "e"%char); ("E"%char, "E"%char)])
                          (Cat (Opt (Class [("-"%char, "-"%char);
                                            ("+"%char, "+"%char)]))
                             (digits 1 2))))
                Eol))))
    (fun _ => True)
    (fun s => exists sg i f e,
       s = sg ++ i ++ f ++ e /\ sign sg /\ digits_between 1 50 i /\
       fraction f /\ exponent e)).
  { eapply accepts_iff.
    - eapply accepts_Cat; [| apply accepts_Opt; apply accepts_Class].
      eapply accepts_Cat; [apply accepts_fraction | apply accepts_digits].
    - intros s. cbv beta. unfold sign. split.
      + intros [(i & rest & -> & Hi & f & e & -> & Hf & He)
               | (c & t & -> & Hc & i & rest & -> & Hi & f & e & -> & Hf & He)].
        * exists [], i, f, e. auto.
        * apply in_class_minus_iff in Hc. subst c.
          exists ["-"%char], i, f, e. auto.
      + intros (sg & i & f & e & -> & [-> | ->] & Hi & Hf & He).
        * left. exists i, (f ++ e). split; [reflexivity |].
          split; [exact Hi |]. exists f, e. auto.
        * right. exists "-"%char, (i ++ f ++ e). split; [reflexivity |].
          split; [apply in_class_minus_iff; reflexivity |].
          exists i, (f ++ e). split; [reflexivity |].
          split; [exact Hi |]. exists f, e. auto. }
  exact (Hacc _ Hk true (list_ascii_of_string str)).
Qed.

End regexp_accepts.

Section decimal_validation.

Variable json_Valid : list byte -> bool.

Lemma ValidateValue_DecimalStringKind (v : GoValue) :
  ValidateValue json_Valid DecimalStringKind v =
  match v with
  | VString str =>
    if regexp.Match decimalRegex (list_ascii_of_string str) then ok
    else Errorf ("expected decimal number, got " +:+ str)
  | _ => Errorf ("expected string, got " +:+ fmt.T v)
  end.
Proof.
  destruct v; try reflexivity.
  change (ValidateValue json_Valid DecimalStringKind (VString s))
    with (if negb (regexp.Match decimalRegex (list_ascii_of_string s))
          then Errorf ("expected decimal number, got " +:+ s)
          else ok).
  destruct (regexp.Match decimalRegex (list_ascii_of_string s)); reflexivity.
Qed.

(** X7: [ValidateValue] at [DecimalStringKind] succeeds exactly on the
    Go strings of the grammar of [DecimalFormat]: an optional minus
    sign, 1 to 50 digits, optionally a point and 1 to 50 digits,
    optionally an exponent of 1 or 2 digits with an optional sign after
    [e] or [E]. A value of another type is refused. *)
Theorem DecimalString_deep_validation (v : GoValue) :
  ValidateValue json_Valid DecimalStringKind v = ok <->
  exists str, v = VString str /\ grammar.decimal_string str.
Proof.
  rewrite ValidateValue_DecimalStringKind. split.
  - destruct v; try discriminate.
    destruct (regexp.Match decimalRegex (list_ascii_of_string s)) eqn:Hm;
      [| discriminate].
    intros _. exists s. split; [reflexivity |].
    apply decimalRegex_Match. exact Hm.
  - intros (str & -> & Hg). apply decimalRegex_Match in Hg.
    rewrite Hg. reflexivity.
Qed.

End decimal_validation.

(** * How the string-backed kinds relate *)

Lemma decode_ASCII (c : byte) (t : list byte) :
  byte_val c < 0x80 -> utf8.decode (c :: t) = (byte_val c, 1%nat).
Proof.
  intros Hc. unfold utf8.decode, utf8.first.
  destruct (Z.ltb_spec (byte_val c) 0x80); [reflexivity | lia].
Qed.

Lemma valid_from_ASCII (fuel : nat) (s : list byte) :
  Forall (fun c => byte_val c < 0x80) s -> utf8.valid_from fuel s = true.
Proof.
  revert s. induction fuel as [| fuel IH]; intros s Hs; [reflexivity |].
  destruct s as [| c t]; [reflexivity |].
  apply Forall_cons in Hs as [Hc Ht].
  cbn [utf8.valid_from]. rewrite (decode_ASCII c t Hc).
  replace (byte_val c =? utf8.RuneError) with false
    by (symmetry; apply Z.eqb_neq; unfold utf8.RuneError; lia).
  cbn [andb]. apply IH. exact Ht.
Qed.

(** A byte of a number: a digit, a sign, the point or the letter of
    the exponent. All of them are ASCII and none is NUL. *)
Lemma number_byte_ASCII (c : byte) :
  spec.is_digit c = true \/ In c ["-"; "+"; "."; "e"; "E"]%char ->
  0 < byte_val c < 0x80.
Proof.
  intros [Hd | Hin].
  - unfold spec.is_digit in Hd. apply existsb_exists in Hd as (d & Hin & Hd).
    apply Ascii.eqb_eq in Hd. subst d.
    cbn [In] in Hin. intuition (subst c; vm_compute; split; reflexivity).
  - cbn [In] in Hin. intuition (subst c; vm_compute; split; reflexivity).
Qed.

Lemma digits_ASCII (l : list byte) :
  forallb spec.is_digit l = true ->
  Forall (fun c => 0 < byte_val c < 0x80) l.
Proof.
  intros H. apply list.Forall_forall. intros c Hc.
  apply number_byte_ASCII. left.
  rewrite forallb_forall in H. apply H. apply list_elem_of_In. exact Hc.
Qed.

Lemma integer_string_bytes (str : string) :
  spec.integer_string str = true ->
  exists sg ds,
    list_ascii_of_string str = sg ++ ds /\ grammar.sign sg /\
    grammar.digits_between 1 100 ds.
Proof.
  unfold spec.integer_string, spec.unsigned_integer, grammar.sign,
    grammar.digits_between.
  destruct (list_ascii_of_string str) as [| c t]; [discriminate |].
  destruct (Ascii.eqb_spec c "-") as [-> | _]; intros H;
    apply andb_true_iff in H as [H Hd];
    apply andb_true_iff in H as [H1 H2];
    apply Nat.leb_le in H1; apply Nat.leb_le in H2.
  - exists ["-"%char], t. auto.
  - exists [], (c :: t). auto.
Qed.

Section number_strings.

Variable json_Valid : list byte -> bool.

(** X8: a string of ASCII bytes other than NUL passes deep validation
    at [StringKind]; so does every value that passes it at
    [IntegerStringKind] or at [DecimalStringKind]. *)
Theorem numbers_are_strings :
  (forall str : string,
     Forall (fun c => 0 < byte_val c < 0x80) (list_ascii_of_string str) ->
     ValidateValue json_Valid StringKind (VString str) = ok) /\
  (forall v : GoValue,
     ValidateValue json_Valid IntegerStringKind v = ok \/
     ValidateValue json_Valid DecimalStringKind v = ok ->
     ValidateValue json_Valid StringKind v = ok).
Proof.
  assert (Hascii : forall str : string,
    Forall (fun c => 0 < byte_val c < 0x80) (list_ascii_of_string str) ->
    ValidateValue json_Valid StringKind (VString str) = ok).
  { intros str Hs. rewrite ValidateValue_StringKind.
    replace (utf8.ValidString str) with true.
    - destruct (has_null_rune str) eqn:Hn; [| reflexivity].
      apply has_null_rune_iff in Hn. rewrite list.Forall_forall in Hs.
      apply list_elem_of_In in Hn. specialize (Hs _ Hn).
      vm_compute in Hs. destruct Hs as [Hs _]. discriminate Hs.
    - symmetry. apply valid_from_ASCII. eapply Forall_impl; [exact Hs |].
      intros c Hc. cbv beta in Hc. lia. }
  split; [exact Hascii |].
  intros v [Hi | Hd].
  - rewrite ValidateValue_IntegerStringKind in Hi.
    destruct v as [| str | | | | | | | | | | | | | | | |]; try discriminate Hi.
    destruct (spec.integer_string str) eqn:Hs; [| discriminate Hi].
    apply Hascii.
    apply integer_string_bytes in Hs as (sg & ds & -> & Hsg & _ & Hds).
    apply Forall_app. split; [| apply digits_ASCII; exact Hds].
    destruct Hsg as [-> | ->]; repeat constructor.
  - rewrite ValidateValue_DecimalStringKind in Hd.
    destruct v as [| str | | | | | | | | | | | | | | | |]; try discriminate Hd.
    destruct (regexp.Match decimalRegex (list_ascii_of_string str)) eqn:Hs;
      [| discriminate Hd].
    apply decimalRegex_Match in Hs. apply Hascii.
    destruct Hs as (sg & i & f & e & -> & Hsg & [_ Hi] & Hf & He).
    repeat (apply Forall_app; split).
    + destruct Hsg as [-> | ->]; repeat constructor.
    + apply digits_ASCII. exact Hi.
    + destruct Hf as [-> | (ds & -> & _ & Hds)]; [constructor |].
      apply Forall_cons. split; [vm_compute; split; reflexivity |].
      apply digits_ASCII. exact Hds.
    + destruct He as [-> | (c & s & ds & -> & Hc & Hs & _ & Hds)];
        [constructor |].
      apply Forall_cons. split.
      * destruct Hc as [-> | ->]; vm_compute; split; reflexivity.
      * apply Forall_app. split; [| apply digits_ASCII; exact Hds].
        destruct Hs as [-> | [-> | ->]]; repeat constructor.
Qed.

End number_strings.

Lemma filter_digits (l : list byte) :
  forallb spec.is_digit l = true -> List.filter spec.is_digit l = l.
Proof.
  induction l as [| c l IH]; cbn [forallb List.filter]; [reflexivity |].
  intros H. apply andb_true_iff in H as [Hc Hl].
  rewrite Hc, (IH Hl). reflexivity.
Qed.

Lemma filter_sign (sg : list byte) :
  grammar.sign sg -> List.filter spec.is_digit sg = [].
Proof. intros [-> | ->]; reflexivity. Qed.

Section integers_as_decimals.

Variable json_Valid : list byte -> bool.

(** X9: an integer string is a decimal string only up to 50 digits. A
    string that passes deep validation at [IntegerStringKind] passes
    it at [DecimalStringKind] exactly when it has at most 50 digits:
    the integers of 51 to 100 digits are refused as decimals. *)
Theorem integer_as_decimal (str : string) :
  ValidateValue json_Valid IntegerStringKind (VString str) = ok ->
  (ValidateValue json_Valid DecimalStringKind (VString str) = ok <->
   (length (List.filter spec.is_digit (list_ascii_of_string str)) <= 50)%nat).
Proof.
  rewrite ValidateValue_IntegerStringKind, ValidateValue_DecimalStringKind.
  destruct (spec.integer_string str) eqn:Hi; [intros _ | discriminate].
  apply integer_string_bytes in Hi as (sg & ds & Hb & Hsg & [Hlen Hds]).
  assert (Hcount : List.filter spec.is_digit (list_ascii_of_string str) = ds).
  { rewrite Hb, List.filter_app, (filter_sign sg Hsg), (filter_digits ds Hds).
    reflexivity. }
  rewrite Hcount.
  assert (Hall : forall c, In c (list_ascii_of_string str) ->
                           c = "-"%char \/ spec.is_digit c = true).
  { intros c Hc. rewrite Hb in Hc. apply in_app_iff in Hc as [Hc | Hc].
    - destruct Hsg as [-> | ->]; [destruct Hc |].
      destruct Hc as [<- | []]. left. reflexivity.
    - right. rewrite forallb_forall in Hds. exact (Hds c Hc). }
  destruct (regexp.Match decimalRegex (list_ascii_of_string str)) eqn:Hm.
  - split; [intros _ | reflexivity].
    apply decimalRegex_Match in Hm
      as (s & i & f & e & Hb' & Hs & [Hleni Hi] & Hf & He).
    assert (Hf' : f = []).
    { destruct Hf as [-> | (fd & -> & _)]; [reflexivity |].
      destruct (Hall "."%char) as [H | H]; [| discriminate H ..].
      rewrite Hb', !in_app_iff. right. right. left. left. reflexivity. }
    assert (He' : e = []).
    { destruct He as [-> | (c & x & d & -> & Hc & _)]; [reflexivity |].
      destruct (Hall c) as [H | H].
      - rewrite Hb', !in_app_iff. right. right. right. left. reflexivity.
      - destruct Hc; congruence.
      - destruct Hc; subst c; discriminate H. }
    subst f e. rewrite !app_nil_r in Hb'.
    assert (ds = i) as ->; [| lia].
    rewrite <- Hcount, Hb', List.filter_app, (filter_sign s Hs),
      (filter_digits i Hi). reflexivity.
  - split; [discriminate | intros Hle]. exfalso.
    assert (Hd : grammar.decimal_string str).
    { exists sg, ds, [], []. rewrite !app_nil_r.
      split; [exact Hb |]. split; [exact Hsg |].
      split; [split; [lia | exact Hds] |].
      split; left; reflexivity. }
    apply decimalRegex_Match in Hd. congruence.
Qed.

End integers_as_decimals.

Lemma integer_as_decimal_witness :
  let str := spec.repeat_char "7" 51 in
  ValidateValue examples.any_json IntegerStringKind (VString str) = ok /\
  (ValidateValue examples.any_json DecimalStringKind (VString str) = ok <->
   (length (List.filter spec.is_digit (list_ascii_of_string str)) <= 50)%nat).
Proof.
  intros str.
  assert (H : ValidateValue examples.any_json IntegerStringKind (VString str)
              = ok) by (vm_compute; reflexivity).
  split; [exact H | exact (integer_as_decimal examples.any_json str H)].
Defined.

(** * The calls of the simulator *)

Section ProcessBlockData_facts.

Import appdatatest trace.

Context {ListenerState App : Type}.
Variable ApplyUpdate : string -> ObjectUpdate -> App -> App * error.

Implicit Types (l : Listener ListenerState) (data : BlockData)
  (ls : ListenerState) (st : App) (calls : list Event)
  (a : Simulator ListenerState App).

(** Induction along the loop of [ProcessBlockData]: a property of its
    runs holds when it holds of the run on no packet, of the runs that
    stop at the first packet, in [SendPacket] or in [ApplyUpdate], and
    of the runs that go on after it. *)
Lemma send_packets_induction l
    (P : BlockData -> ListenerState -> App ->
         ListenerState * App * error * list Event -> Prop) :
  (forall ls st, P [] ls st (ls, st, ok, [])) ->
  (forall p rest ls st ls1 m,
     SendPacket l p ls = (ls1, Errorf m) ->
     P (p :: rest) ls st (ls1, st, Errorf m, [(CallSendPacket p, Errorf m)])) ->
  (forall d rest ls st ls1 st1 m,
     SendPacket l (PObjectUpdateData d) ls = (ls1, ok) ->
     ApplyUpdate (ModuleName d) (Update d) st = (st1, Errorf m) ->
     P (PObjectUpdateData d :: rest) ls st
       (ls1, st1, Errorf m,
        [(CallSendPacket (PObjectUpdateData d), ok);
         (CallApplyUpdate (ModuleName d) (Update d), Errorf m)])) ->
  (forall d rest ls st ls1 st1 ls2 st2 err calls,
     SendPacket l (PObjectUpdateData d) ls = (ls1, ok) ->
     ApplyUpdate (ModuleName d) (Update d) st = (st1, ok) ->
     send_packets ApplyUpdate l rest ls1 st1 = (ls2, st2, err, calls) ->
     P rest ls1 st1 (ls2, st2, err, calls) ->
     P (PObjectUpdateData d :: rest) ls st
       (ls2, st2, err,
        (CallSendPacket (PObjectUpdateData d), ok)
        :: (CallApplyUpdate (ModuleName d) (Update d), ok) :: calls)) ->
  (forall p rest ls st ls1 ls2 st2 err calls,
     updates_of [p] = [] ->
     SendPacket l p ls = (ls1, ok) ->
     send_packets ApplyUpdate l rest ls1 st = (ls2, st2, err, calls) ->
     P rest ls1 st (ls2, st2, err, calls) ->
     P (p :: rest) ls st (ls2, st2, err, (CallSendPacket p, ok) :: calls)) ->
  forall data ls st, P data ls st (send_packets ApplyUpdate l data ls st).
Proof.
  intros Hnil Hsend Happ Hupd Hother.
  induction data as [| p rest IH]; intros ls st; [apply Hnil |].
  cbn [send_packets].
  destruct (SendPacket l p ls) as [ls1 [| m]] eqn:Hs; [| apply Hsend; exact Hs].
  destruct p as [aligned | name | sb | d |].
  1, 2, 3, 5:
    specialize (IH ls1 st);
    destruct (send_packets ApplyUpdate l rest ls1 st)
      as [[[ls2 st2] err] calls] eqn:Hrest;
    eapply Hother; [reflexivity | exact Hs | exact Hrest | exact IH].
  destruct (ApplyUpdate (ModuleName d) (Update d) st) as [st1 [| m]] eqn:Ha;
    [| apply Happ; assumption].
  specialize (IH ls1 st1).
  destruct (send_packets ApplyUpdate l rest ls1 st1)
    as [[[ls2 st2] err] calls] eqn:Hrest.
  eapply Hupd; eassumption.
Qed.

Lemma sent_packets_send (p : Packet) (e : error) calls :
  sent_packets ((CallSendPacket p, e) :: calls) = p :: sent_packets calls.
Proof. reflexivity. Qed.

Lemma sent_packets_apply (m : string) (u : ObjectUpdate) (e : error) calls :
  sent_packets ((CallApplyUpdate m u, e) :: calls) = sent_packets calls.
Proof. reflexivity. Qed.

Lemma applied_updates_send (p : Packet) (e : error) calls :
  applied_updates ((CallSendPacket p, e) :: calls) = applied_updates calls.
Proof. reflexivity. Qed.

Lemma applied_updates_apply (d : ObjectUpdateData) (e : error) calls :
  applied_updates ((CallApplyUpdate (ModuleName d) (Update d), e) :: calls)
  = d :: applied_updates calls.
Proof. destruct d. reflexivity. Qed.

Lemma updates_of_cons (p : Packet) data :
  updates_of (p :: data) = updates_of [p] ++ updates_of data.
Proof. destruct p; reflexivity. Qed.

(** What the loop over the packets keeps, however it ends. *)
Lemma send_packets_log l data ls st :
  let '(ls', st', err, calls) := send_packets ApplyUpdate l data ls st in
  halts calls err /\
  existsb is_commit calls = false /\
  existsb is_start calls = false /\
  sent_packets calls `prefix_of` data /\
  applied_updates calls `prefix_of` updates_of (sent_packets calls) /\
  st' = apply_updates ApplyUpdate
          (map PObjectUpdateData (applied_updates calls)) st /\
  (err = ok ->
   sent_packets calls = data /\ applied_updates calls = updates_of data).
Proof.
  revert data ls st.
  apply (send_packets_induction l
           (fun data ls st r =>
              let '(ls', st', err, calls) := r in
              halts calls err /\
              existsb is_commit calls = false /\
              existsb is_start calls = false /\
              sent_packets calls `prefix_of` data /\
              applied_updates calls `prefix_of` updates_of (sent_packets calls) /\
              st' = apply_updates ApplyUpdate
                      (map PObjectUpdateData (applied_updates calls)) st /\
              (err = ok ->
               sent_packets calls = data /\
               applied_updates calls = updates_of data))).
  - intros ls st. repeat split; try reflexivity. constructor.
  - intros p rest ls st ls1 m Hs.
    split; [constructor |]. repeat (split; [reflexivity |]).
    split; [rewrite sent_packets_send; apply prefix_cons, prefix_nil |].
    split; [apply prefix_nil |]. split; [reflexivity | discriminate].
  - intros d rest ls st ls1 st1 m Hs Ha.
    split; [constructor; constructor |]. repeat (split; [reflexivity |]).
    rewrite sent_packets_send, sent_packets_apply, applied_updates_send,
      applied_updates_apply.
    split; [apply prefix_cons, prefix_nil |].
    split; [reflexivity |]. split; [| discriminate].
    cbn. rewrite Ha. reflexivity.
  - intros d rest ls st ls1 st1 ls2 st2 err calls Hs Ha Hrest
      (Hh & Hc & Hst & Hsent & Happ & Hst2 & Hok).
    split; [constructor; constructor; exact Hh |].
    split; [exact Hc |]. split; [exact Hst |].
    rewrite sent_packets_send, sent_packets_apply, applied_updates_send,
      applied_updates_apply.
    split; [apply prefix_cons; exact Hsent |].
    split; [apply (prefix_cons d); exact Happ |].
    split.
    + cbn. rewrite Ha. exact Hst2.
    + intros He. destruct (Hok He) as [H1 H2]. rewrite H1, H2. auto.
  - intros p rest ls st ls1 ls2 st2 err calls Hp Hs Hrest
      (Hh & Hc & Hst & Hsent & Happ & Hst2 & Hok).
    split; [constructor; exact Hh |].
    split; [exact Hc |]. split; [exact Hst |].
    rewrite sent_packets_send, applied_updates_send.
    split; [apply prefix_cons; exact Hsent |].
    split; [rewrite updates_of_cons, Hp; exact Happ |].
    split; [exact Hst2 |].
    intros He. destruct (Hok He) as [H1 H2].
    rewrite H1, H2, (updates_of_cons p rest), Hp. auto.
Qed.

Lemma halts_app calls1 calls2 (err : error) :
  halts calls1 ok -> halts calls2 err -> halts (calls1 ++ calls2) err.
Proof.
  intros H1 H2. remember ok as e eqn:He.
  induction H1 as [| call msg | call calls e IH1 IH]; subst.
  - exact H2.
  - discriminate.
  - cbn [app]. constructor. apply IH. reflexivity.
Qed.

Lemma halts_one (call : Call) (err : error) : halts [(call, err)] err.
Proof. destruct err; repeat constructor. Qed.

Lemma halts_ok_iff calls (err : error) :
  halts calls err ->
  (err = ok <-> Forall (fun ev : Event => ev.2 = ok) calls).
Proof.
  induction 1 as [| call msg | call calls err H IH].
  - split; [constructor | reflexivity].
  - split; [discriminate |]. intros HF. apply Forall_cons in HF as [HF _].
    discriminate HF.
  - rewrite IH. split.
    + intros HF. apply Forall_cons. split; [reflexivity | exact HF].
    + intros HF. apply Forall_cons in HF as [_ HF]. exact HF.
Qed.

(** In a run that halts, a failed call is the last call and its error
    is the error of the run. *)
Lemma halts_failed_last calls (err : error) (call : Call) (msg : string) :
  halts calls err ->
  In (call, Errorf msg) calls ->
  err = Errorf msg /\ last calls = Some (call, Errorf msg).
Proof.
  induction 1 as [| call' msg' | call' calls err H IH]; intros Hin.
  - destruct Hin.
  - destruct Hin as [[= -> ->] | []]. split; reflexivity.
  - destruct Hin as [Hin | Hin]; [discriminate Hin |].
    destruct (IH Hin) as [He Hl]. split; [exact He |].
    rewrite last_cons, Hl. reflexivity.
Qed.

Ltac loop_and_commit ls0 :=
  match goal with
  | |- context [send_packets ?app ?l ?data ls0 ?st] =>
    let ls1 := fresh "ls1" in
    let st1 := fresh "st1" in
    let e1 := fresh "e1" in
    let calls1 := fresh "calls1" in
    let g := fresh "g" in
    let ls2 := fresh "ls2" in
    let e2 := fresh "e2" in
    destruct (send_packets app l data ls0 st) as [[[ls1 st1] e1] calls1];
    exists ls1, st1, e1, calls1; split; [reflexivity |];
    destruct e1; [| reflexivity];
    destruct (Commit l) as [g |];
    [ destruct (g ls1) as [ls2 e2] eqn:?;
      exists ls2, e2, [(CallCommit, e2)];
      split; [right; exists g; auto | reflexivity]
    | exists ls1, ok, []; split; [left; auto |];
      rewrite ?app_nil_r; reflexivity ]
  end.

(** The phases of [ProcessBlockData]: the call of [StartBlock] if the
    callback is not nil, the loop over the packets if that call
    succeeded, and the call of [Commit] if the loop ran to its end and
    the callback is not nil. *)
Lemma ProcessBlockData_phases a data :
  let n := (blockNum a + 1) mod uint64_modulus in
  let l := options a in
  exists ls0 e0 calls0,
    (StartBlock l = None /\ ls0 = listener a /\ e0 = ok /\ calls0 = []
     \/ exists f, StartBlock l = Some f /\
                  f {| Height := n |} (listener a) = (ls0, e0) /\
                  calls0 = [(CallStartBlock {| Height := n |}, e0)]) /\
    match e0 with
    | Errorf _ =>
      ProcessBlockData ApplyUpdate a data
      = ({| state := state a; options := l; listener := ls0; blockNum := n |},
         e0, calls0)
    | ok =>
      exists ls1 st1 e1 calls1,
        send_packets ApplyUpdate l data ls0 (state a) = (ls1, st1, e1, calls1) /\
        match e1 with
        | Errorf _ =>
          ProcessBlockData ApplyUpdate a data
          = ({| state := st1; options := l; listener := ls1; blockNum := n |},
             e1, calls0 ++ calls1)
        | ok =>
          exists ls2 e2 calls2,
            (Commit l = None /\ ls2 = ls1 /\ e2 = ok /\ calls2 = []
             \/ exists g, Commit l = Some g /\ g ls1 = (ls2, e2) /\
                          calls2 = [(CallCommit, e2)]) /\
            ProcessBlockData ApplyUpdate a data
            = ({| state := st1; options := l; listener := ls2; blockNum := n |},
               e2, calls0 ++ calls1 ++ calls2)
        end
    end.
Proof.
  intros n l. unfold ProcessBlockData. fold n. fold l.
  destruct (StartBlock l) as [f |].
  - destruct (f {| Height := n |} (listener a)) as [ls0 e0] eqn:Hf.
    exists ls0, e0, [(CallStartBlock {| Height := n |}, e0)].
    split; [right; exists f; auto |].
    destruct e0 as [| m0]; [| reflexivity]. loop_and_commit ls0.
  - exists (listener a), ok, []. split; [left; auto |].
    loop_and_commit (listener a).
Qed.

Lemma apply_updates_updates_of data st :
  apply_updates ApplyUpdate (map PObjectUpdateData (updates_of data)) st
  = apply_updates ApplyUpdate data st.
Proof.
  revert st. induction data as [| p rest IH]; intros st; [reflexivity |].
  destruct p; cbn; apply IH.
Qed.

(** The runs of [ProcessBlockData], phase by phase, with what the loop
    keeps. *)
Ltac phases a data :=
  let ls0 := fresh "ls0" in
  let e0 := fresh "e0" in
  let calls0 := fresh "calls0" in
  let Hstart := fresh "Hstart" in
  let Hrun := fresh "Hrun" in
  let Hloop := fresh "Hloop" in
  let Hlog := fresh "Hlog" in
  let Hcommit := fresh "Hcommit" in
  destruct (ProcessBlockData_phases a data)
    as (ls0 & e0 & calls0 & Hstart & Hrun);
  destruct e0 as [| ?m0];
  [ destruct Hrun as (?ls1 & ?st1 & ?e1 & ?calls1 & Hloop & Hrun);
    pose proof (send_packets_log (options a) data ls0 (state a)) as Hlog;
    rewrite Hloop in Hlog;
    destruct Hlog as (?Hhalts & ?Hnocommit & ?Hnostart & ?Hsent & ?Happlied
                      & ?Hstate & ?Hall);
    destruct e1 as [| ?m1];
    [ destruct Hrun as (?ls2 & ?e2 & ?calls2 & Hcommit & Hrun);
      destruct (Hall eq_refl) as [?Hsent_all ?Happlied_all];
      destruct Hcommit as [(?Hg & -> & -> & ->) | (?g & ?Hg & ?Hcall & ->)]
    | ];
    destruct Hstart as [(?Hf & -> & _ & ->) | (?f & ?Hf & ?Hcall0 & ->)]
  | destruct Hstart as [(_ & _ & ? & _) | (?f & ?Hf & ?Hcall0 & ->)];
    [ discriminate | ] ];
  rewrite Hrun; cbn [fst snd app]; rewrite ?app_nil_r.

Ltac halts_tac :=
  try apply halts_cons;
  first [ eassumption
        | apply halts_app; [eassumption | apply halts_one]
        | apply halts_one ].

Ltac log_simpl :=
  unfold sent_packets, applied_updates in *;
  cbn [omap list_omap fst state options];
  rewrite ?omap_app; cbn [omap list_omap fst]; rewrite ?app_nil_r.

(** What a run of [ProcessBlockData] keeps, however it ends. *)
Lemma ProcessBlockData_invariants a data :
  let run := ProcessBlockData ApplyUpdate a data in
  halts run.2 run.1.2 /\
  sent_packets run.2 `prefix_of` data /\
  applied_updates run.2 `prefix_of` updates_of (sent_packets run.2) /\
  state run.1.1
  = apply_updates ApplyUpdate
      (map PObjectUpdateData (applied_updates run.2)) (state a) /\
  options run.1.1 = options a.
Proof.
  intros run. subst run.
  phases a data; (split; [halts_tac |]); log_simpl; auto using prefix_nil.
Qed.

(** X10: whatever happens, the calls [ProcessBlockData] makes stop
    at the first one that fails and its error is the error returned
    (no error is swallowed and nothing is called after a failure); the
    packets sent are a prefix of the block, in order; an update is
    applied to the state model only after its packet was sent; and the
    state model changes through these applied updates alone. *)
Theorem ProcessBlockData_log a data :
  let run := ProcessBlockData ApplyUpdate a data in
  (run.1.2 = ok <-> Forall (fun ev : Event => ev.2 = ok) run.2) /\
  (forall call msg,
     In (call, Errorf msg) run.2 ->
     run.1.2 = Errorf msg /\ last run.2 = Some (call, Errorf msg)) /\
  sent_packets run.2 `prefix_of` data /\
  applied_updates run.2 `prefix_of` updates_of (sent_packets run.2) /\
  state run.1.1
  = apply_updates ApplyUpdate
      (map PObjectUpdateData (applied_updates run.2)) (state a) /\
  options run.1.1 = options a.
Proof.
  intros run.
  destruct (ProcessBlockData_invariants a data) as (Hh & H).
  fold run in Hh, H.
  split; [apply halts_ok_iff; exact Hh |].
  split; [| exact H].
  intros call msg Hin. exact (halts_failed_last _ _ _ _ Hh Hin).
Qed.

Ltac in_loop H :=
  cbn [In app] in H; rewrite ?in_app_iff in H; cbn [In] in H;
  intuition congruence.

(** X11: when [ProcessBlockData] returns no error, every packet of
    the block was sent to the listener, once and in order, every
    update of the block was applied to the state model, in order,
    [StartBlock] (if not nil) was the first call, with the height
    [blockNum + 1], and [Commit] (if not nil) was the last. *)
Theorem ProcessBlockData_success a data :
  let run := ProcessBlockData ApplyUpdate a data in
  run.1.2 = ok ->
  sent_packets run.2 = data /\
  applied_updates run.2 = updates_of data /\
  state run.1.1 = apply_updates ApplyUpdate data (state a) /\
  (forall f, StartBlock (options a) = Some f ->
     head run.2
     = Some (CallStartBlock
               {| Height := (blockNum a + 1) mod uint64_modulus |}, ok)) /\
  (forall g, Commit (options a) = Some g ->
     last run.2 = Some (CallCommit, ok)).
Proof.
  intros run. subst run. phases a data; intros He; try discriminate He;
    try match type of He with ?e = ok => is_var e; subst e end;
    log_simpl;
    (split; [assumption |]); (split; [assumption |]);
    (split; [rewrite <- apply_updates_updates_of; congruence |]);
    split; intros ? Hsome; try congruence; try reflexivity;
    rewrite ?last_cons, ?last_snoc; reflexivity.
Qed.

(** Where a failed [ApplyUpdate] is in the calls of the loop. *)
Lemma send_packets_apply_error l data ls st :
  forall m u msg,
    In (CallApplyUpdate m u, Errorf msg)
       (send_packets ApplyUpdate l data ls st).2 ->
    exists (i : nat) (d : ObjectUpdateData),
      data !! i = Some (PObjectUpdateData d) /\
      m = ModuleName d /\ u = Update d /\
      sent_packets (send_packets ApplyUpdate l data ls st).2
      = take (S i) data /\
      applied_updates (send_packets ApplyUpdate l data ls st).2
      = updates_of (take (S i) data).
Proof.
  revert data ls st.
  apply (send_packets_induction l
           (fun data ls st r =>
              forall m u msg,
                In (CallApplyUpdate m u, Errorf msg) r.2 ->
                exists (i : nat) (d : ObjectUpdateData),
                  data !! i = Some (PObjectUpdateData d) /\
                  m = ModuleName d /\ u = Update d /\
                  sent_packets r.2 = take (S i) data /\
                  applied_updates r.2 = updates_of (take (S i) data)));
    cbn [snd].
  - intros ls st m u msg [].
  - intros p rest ls st ls1 m0 Hs m u msg [H | []]. discriminate H.
  - intros d rest ls st ls1 st1 m0 Hs Ha m u msg [H | [H | []]];
      [discriminate H |].
    injection H as <- <- <-. exists 0%nat, d.
    rewrite sent_packets_send, sent_packets_apply, applied_updates_send,
      applied_updates_apply.
    repeat split; reflexivity.
  - intros d rest ls st ls1 st1 ls2 st2 err calls Hs Ha Hrest IH m u msg
      [H | [H | H]]; [discriminate H .. |].
    destruct (IH m u msg H) as (i & d' & Hi & Hm & Hu & Hsent & Happ).
    exists (S i), d'.
    rewrite sent_packets_send, sent_packets_apply, applied_updates_send,
      applied_updates_apply, Hsent, Happ.
    repeat split; assumption.
  - intros p rest ls st ls1 ls2 st2 err calls Hp Hs Hrest IH m u msg
      [H | H]; [discriminate H |].
    destruct (IH m u msg H) as (i & d' & Hi & Hm & Hu & Hsent & Happ).
    exists (S i), d'.
    rewrite sent_packets_send, applied_updates_send, Hsent, Happ.
    split; [exact Hi |]. split; [exact Hm |]. split; [exact Hu |].
    split; [reflexivity |].
    change (take (S (S i)) (p :: rest)) with (p :: take (S i) rest).
    rewrite (updates_of_cons p), Hp. reflexivity.
Qed.

(** X12: when a call of [ApplyUpdate] on the state model returns an
    error, for the update of the packet at some position [i],
    [ProcessBlockData] returns that error and makes no other call
    after it, [Commit] included. The listener was sent the packets up
    to position [i], that of the refused update too, and the state
    model was handed the updates up to that one. *)
Theorem ApplyUpdate_error_aborts_block a data (m : string)
    (u : ObjectUpdate) (msg : string) :
  let run := ProcessBlockData ApplyUpdate a data in
  In (CallApplyUpdate m u, Errorf msg) run.2 ->
  run.1.2 = Errorf msg /\
  last run.2 = Some (CallApplyUpdate m u, Errorf msg) /\
  existsb is_commit run.2 = false /\
  exists (i : nat) (d : ObjectUpdateData),
    data !! i = Some (PObjectUpdateData d) /\
    m = ModuleName d /\ u = Update d /\
    sent_packets run.2 = take (S i) data /\
    applied_updates run.2 = updates_of (take (S i) data).
Proof.
  intros run. subst run. phases a data; intros Hin;
    try (exfalso; in_loop Hin);
    (assert (Hin1 : In (CallApplyUpdate m u, Errorf msg) calls1)
       by in_loop Hin);
    destruct (halts_failed_last _ _ _ _ Hhalts Hin1) as [He Hlast];
    try discriminate He;
    match type of Hloop with
    | send_packets _ _ _ ?ls _ = _ =>
      pose proof (send_packets_apply_error (options a) data ls (state a)
                    m u msg) as Hpos
    end;
    rewrite Hloop in Hpos; specialize (Hpos Hin1);
    (split; [exact He |]);
    (split; [rewrite ?last_cons, Hlast; reflexivity |]);
    (split; [exact Hnocommit |]); exact Hpos.
Qed.

Lemma not_in_loop (ev : Event) (test : Event -> bool) calls :
  existsb test calls = false -> test ev = true -> ~ In ev calls.
Proof.
  intros Hnone Hev Hin.
  assert (existsb test calls = true)
    by (apply existsb_exists; exists ev; auto).
  congruence.
Qed.

(** X13: when the call of [StartBlock] returns an error, it is the
    only call [ProcessBlockData] makes: no packet is sent, the state
    model is left as it was and the error is returned. The height it
    was called with is [blockNum + 1]. *)
Theorem StartBlock_error_aborts_block a data (h : StartBlockData)
    (msg : string) :
  let run := ProcessBlockData ApplyUpdate a data in
  In (CallStartBlock h, Errorf msg) run.2 ->
  run.2 = [(CallStartBlock h, Errorf msg)] /\
  run.1.2 = Errorf msg /\
  state run.1.1 = state a /\
  Height h = (blockNum a + 1) mod uint64_modulus.
Proof.
  intros run. subst run. phases a data; intros Hin;
    try (exfalso;
         match goal with
         | H : existsb is_start ?c = false |- _ =>
           apply (not_in_loop (CallStartBlock h, Errorf msg) is_start c
                    H eq_refl)
         end;
         in_loop Hin).
  destruct Hin as [[= <- <-] | []]. repeat split; reflexivity.
Qed.

(** X14: when the call of [Commit] returns an error, [ProcessBlockData]
    returns it, after every packet of the block was sent and every
    update of the block was applied to the state model: the state
    model keeps the updates of a block whose commit failed. *)
Theorem Commit_error_keeps_updates a data (msg : string) :
  let run := ProcessBlockData ApplyUpdate a data in
  In (CallCommit, Errorf msg) run.2 ->
  run.1.2 = Errorf msg /\
  last run.2 = Some (CallCommit, Errorf msg) /\
  sent_packets run.2 = data /\
  applied_updates run.2 = updates_of data /\
  state run.1.1 = apply_updates ApplyUpdate data (state a).
Proof.
  intros run. subst run. phases a data; intros Hin;
    match goal with
    | H : existsb is_commit ?c = false |- _ =>
      pose proof (not_in_loop (CallCommit, Errorf msg) is_commit c H eq_refl)
        as Hout
    | _ => idtac
    end;
    try (exfalso; in_loop Hin);
    match goal with
    | |- ?e = Errorf msg /\ _ =>
      assert (He : e = Errorf msg) by in_loop Hin; subst e
    end;
    rewrite ?last_cons, ?last_snoc; log_simpl;
    (split; [reflexivity |]); (split; [reflexivity |]);
    (split; [assumption |]); (split; [assumption |]);
    rewrite <- apply_updates_updates_of; congruence.
Qed.

(** The first call when [StartBlock] is not nil, and the counter and
    the callbacks after the block. *)
Lemma ProcessBlockData_start a data f :
  StartBlock (options a) = Some f ->
  let run := ProcessBlockData ApplyUpdate a data in
  let n := (blockNum a + 1) mod uint64_modulus in
  (exists e, head run.2 = Some (CallStartBlock {| Height := n |}, e)) /\
  blockNum run.1.1 = n /\ options run.1.1 = options a.
Proof.
  intros Hsome run n. subst run n. phases a data; try congruence;
    (split; [eexists; reflexivity | split; reflexivity]).
Qed.

(** X15: the heights announced by two calls of [ProcessBlockData] in a
    row are consecutive (modulo 2^64), whether the first block failed
    or not: a height is never announced twice. *)
Theorem heights_are_consecutive a data1 data2 f :
  StartBlock (options a) = Some f ->
  let run1 := ProcessBlockData ApplyUpdate a data1 in
  let run2 := ProcessBlockData ApplyUpdate run1.1.1 data2 in
  exists e1 e2,
    head run1.2
    = Some (CallStartBlock
              {| Height := (blockNum a + 1) mod uint64_modulus |}, e1) /\
    head run2.2
    = Some (CallStartBlock
              {| Height := (blockNum a + 2) mod uint64_modulus |}, e2).
Proof.
  intros Hsome run1 run2.
  destruct (ProcessBlockData_start a data1 f Hsome) as ([e1 H1] & Hn & Ho).
  fold run1 in H1, Hn, Ho. rewrite <- Ho in Hsome.
  destruct (ProcessBlockData_start run1.1.1 data2 f Hsome) as ([e2 H2] & _).
  fold run2 in H2. exists e1, e2. split; [exact H1 |].
  rewrite H2, Hn, Zplus_mod_idemp_l.
  replace (blockNum a + 1 + 1) with (blockNum a + 2) by lia. reflexivity.
Qed.

End ProcessBlockData_facts.

Import appdatatest.

Lemma ProcessBlockData_success_witness :
  let a := examples.sim0 examples2.accepts_all in
  let run := ProcessBlockData examples.log_update a examples.three_packets in
  run.1.2 = ok /\
  sent_packets run.2 = examples.three_packets /\
  applied_updates run.2 = updates_of examples.three_packets /\
  state run.1.1
  = apply_updates examples.log_update examples.three_packets (state a) /\
  (forall f, StartBlock (options a) = Some f ->
     head run.2
     = Some (CallStartBlock
               {| Height := (blockNum a + 1) mod uint64_modulus |}, ok)) /\
  (forall g, Commit (options a) = Some g ->
     last run.2 = Some (CallCommit, ok)).
Proof.
  intros a run.
  assert (H : run.1.2 = ok) by reflexivity.
  split; [exact H |].
  exact (ProcessBlockData_success examples.log_update a
           examples.three_packets H).
Defined.

Lemma ApplyUpdate_error_aborts_block_witness :
  let a := examples.sim0 examples2.accepts_all in
  let run := ProcessBlockData examples2.refuse_key_2 a examples.three_packets in
  let m := "bank" in
  let u := Update (examples.bank_update 2) in
  let msg := "update refused" in
  In (CallApplyUpdate m u, Errorf msg) run.2 /\
  run.1.2 = Errorf msg /\
  last run.2 = Some (CallApplyUpdate m u, Errorf msg) /\
  existsb is_commit run.2 = false /\
  exists (i : nat) (d : ObjectUpdateData),
    examples.three_packets !! i = Some (PObjectUpdateData d) /\
    m = ModuleName d /\ u = Update d /\
    sent_packets run.2 = take (S i) examples.three_packets /\
    applied_updates run.2 = updates_of (take (S i) examples.three_packets).
Proof.
  intros a run m u msg.
  assert (H : In (CallApplyUpdate m u, Errorf msg) run.2)
    by (vm_compute; tauto).
  split; [exact H |].
  exact (ApplyUpdate_error_aborts_block examples2.refuse_key_2 a
           examples.three_packets m u msg H).
Defined.

Lemma StartBlock_error_aborts_block_witness :
  let a := examples.sim0 examples.start_fails in
  let run := ProcessBlockData examples.log_update a examples.three_packets in
  let h := {| Height := 7 |} in
  let msg := "start refused" in
  In (CallStartBlock h, Errorf msg) run.2 /\
  run.2 = [(CallStartBlock h, Errorf msg)] /\
  run.1.2 = Errorf msg /\
  state run.1.1 = state a /\
  Height h = (blockNum a + 1) mod uint64_modulus.
Proof.
  intros a run h msg.
  assert (H : In (CallStartBlock h, Errorf msg) run.2)
    by (vm_compute; tauto).
  split; [exact H |].
  exact (StartBlock_error_aborts_block examples.log_update a
           examples.three_packets h msg H).
Defined.

Lemma Commit_error_keeps_updates_witness :
  let a := examples.sim0 examples2.commit_fails in
  let run := ProcessBlockData examples.log_update a examples.three_packets in
  let msg := "commit refused" in
  In (CallCommit, Errorf msg) run.2 /\
  run.1.2 = Errorf msg /\
  last run.2 = Some (CallCommit, Errorf msg) /\
  sent_packets run.2 = examples.three_packets /\
  applied_updates run.2 = updates_of examples.three_packets /\
  state run.1.1
  = apply_updates examples.log_update examples.three_packets (state a).
Proof.
  intros a run msg.
  assert (H : In (CallCommit, Errorf msg) run.2) by (vm_compute; tauto).
  split; [exact H |].
  exact (Commit_error_keeps_updates examples.log_update a
           examples.three_packets msg H).
Defined.

Lemma heights_are_consecutive_witness :
  let a := examples.sim0 examples.second_fails in
  let run1 := ProcessBlockData examples.log_update a examples.three_packets in
  let run2 := ProcessBlockData examples.log_update run1.1.1 [] in
  StartBlock (options a) = Some (fun _ n => (n, ok)) /\
  exists e1 e2,
    head run1.2
    = Some (CallStartBlock
              {| Height := (blockNum a + 1) mod uint64_modulus |}, e1) /\
    head run2.2
    = Some (CallStartBlock
              {| Height := (blockNum a + 2) mod uint64_modulus |}, e2).
Proof.
  intros a run1 run2.
  assert (H : StartBlock (options a) = Some (fun _ n => (n, ok)))
    by reflexivity.
  split; [exact H |].
  exact (heights_are_consecutive examples.log_update a
           examples.three_packets [] _ H).
Defined.

Section NewSimulator_facts.

Context {ListenerState App ModuleSchema Options : Type}.
Variable ApplyUpdate : string -> ObjectUpdate -> App -> App * error.
Variable ExampleAppSchema : gmap string ModuleSchema.
Variable NewApp : gmap string ModuleSchema -> Options -> App.

(** X16: a simulator made by [NewSimulator] has the state model of the
    schema given, or of the example schema when none is given, and
    announces its first block at height 1 and the next one at height
    2, whatever the first block did. *)
Theorem NewSimulator_first_heights
    (options : simulator.SimulatorOptions ListenerState ModuleSchema Options)
    (ls : ListenerState) (data1 data2 : BlockData) f :
  StartBlock (simulator.Listener options) = Some f ->
  let a := simulator.NewSimulator ExampleAppSchema NewApp options ls in
  let run1 := ProcessBlockData ApplyUpdate a data1 in
  let run2 := ProcessBlockData ApplyUpdate run1.1.1 data2 in
  state a = NewApp (default ExampleAppSchema (simulator.AppSchema options))
              (simulator.StateSimOptions options) /\
  exists e1 e2,
    head run1.2 = Some (CallStartBlock {| Height := 1 |}, e1) /\
    head run2.2 = Some (CallStartBlock {| Height := 2 |}, e2).
Proof.
  intros Hsome a run1 run2.
  split; [unfold a, simulator.NewSimulator; cbn [state];
          destruct (simulator.AppSchema options); reflexivity |].
  assert (Ha : StartBlock (appdatatest.options a) = Some f) by exact Hsome.
  destruct (ProcessBlockData_start ApplyUpdate a data1 f Ha)
    as ([e1 H1] & Hn & Ho).
  fold run1 in H1, Hn, Ho. rewrite <- Ho in Ha.
  destruct (ProcessBlockData_start ApplyUpdate run1.1.1 data2 f Ha)
    as ([e2 H2] & _).
  fold run2 in H2. exists e1, e2. split; [exact H1 |].
  rewrite H2, Hn. reflexivity.
Qed.

End NewSimulator_facts.

Lemma NewSimulator_first_heights_witness :
  let a := simulator.NewSimulator (∅ : gmap string unit)
             examples2.no_updates examples2.options0 0%nat in
  let run1 := ProcessBlockData examples.log_update a examples.three_packets in
  let run2 := ProcessBlockData examples.log_update run1.1.1 [] in
  StartBlock (simulator.Listener examples2.options0)
  = Some (fun _ n => (n, ok)) /\
  state a = examples2.no_updates
              (default ∅ (simulator.AppSchema examples2.options0))
              (simulator.StateSimOptions examples2.options0) /\
  exists e1 e2,
    head run1.2 = Some (CallStartBlock {| Height := 1 |}, e1) /\
    head run2.2 = Some (CallStartBlock {| Height := 2 |}, e2).
Proof.
  intros a run1 run2.
  assert (H : StartBlock (simulator.Listener examples2.options0)
              = Some (fun _ n => (n, ok))) by reflexivity.
  split; [exact H |].
  exact (NewSimulator_first_heights examples.log_update ∅
           examples2.no_updates examples2.options0 0%nat
           examples.three_packets [] _ H).
Defined.

(** * The generator of block data, draw by draw *)

Lemma find_first {A : Type} (f : A -> bool) (l : list A) (x : A) :
  List.find f l = Some x ->
  exists l1 l2, l = l1 ++ x :: l2 /\ f x = true /\
                Forall (fun y => f y = false) l1.
Proof.
  induction l as [| y l IH]; cbn [List.find]; [discriminate |].
  destruct (f y) eqn:Hy.
  - intros [= ->]. exists [], l. repeat split; [exact Hy | constructor].
  - intros H. destruct (IH H) as (l1 & l2 & -> & Hx & Hl1).
    exists (y :: l1), l2. repeat split; [exact Hx |].
    apply Forall_cons. split; [exact Hy | exact Hl1].
Qed.

Section BlockDataGen_draws.

Variable fmt_v : GoValue -> string.

Abbreviation key := (update_key fmt_v).

Lemma existing_insert (updateSet : gmap string bool) (k0 k : string) :
  existing (<[k0 := true]> updateSet) k = true <->
  k = k0 \/ existing updateSet k = true.
Proof.
  unfold existing. destruct (decide (k0 = k)) as [-> | Hne].
  - rewrite lookup_insert_eq. tauto.
  - rewrite lookup_insert_ne by exact Hne.
    split; [tauto | intros [-> | H]; [contradiction | exact H]].
Qed.

Lemma updates_of_map (updates : list ObjectUpdateData) :
  updates_of (map PObjectUpdateData updates) = updates.
Proof.
  induction updates as [| u us IH]; [reflexivity |].
  cbn [map]. rewrite updates_of_cons, IH. reflexivity.
Qed.

(** Each round of the loop takes the first of its tries whose key is
    neither in the set the loop started with nor the key of an update
    taken in an earlier round. *)
Lemma draw_updates_first_fresh (rnd : nat -> list ObjectUpdateData)
    (count : nat) :
  forall (i0 : nat) (updateSet : gmap string bool) (packets res : BlockData),
    draw_updates fmt_v rnd i0 count updateSet packets = Some res ->
    exists updates : list ObjectUpdateData,
      res = packets ++ map PObjectUpdateData updates /\
      length updates = count /\
      forall (j : nat) (u : ObjectUpdateData),
        updates !! j = Some u ->
        exists stale later,
          rnd (i0 + j)%nat = stale ++ u :: later /\
          existing updateSet (key u) = false /\
          ~ In (key u) (map key (take j updates)) /\
          Forall (fun x => existing updateSet (key x) = true \/
                           In (key x) (map key (take j updates))) stale.
Proof.
  induction count as [| count IH]; intros i0 updateSet packets res Hrun.
  - injection Hrun as <-. exists []. rewrite app_nil_r.
    repeat split. intros j u Hj. discriminate Hj.
  - cbn [draw_updates] in Hrun. unfold Filter_Draw in Hrun.
    destruct (find _ (rnd i0)) as [u0 |] eqn:Hfind; [| discriminate].
    apply find_first in Hfind as (stale0 & later0 & Hrnd & Hfresh & Hstale).
    apply negb_true_iff in Hfresh.
    destruct (IH _ _ _ _ Hrun) as (updates & -> & Hlen & Hall).
    exists (u0 :: updates). split; [rewrite <- app_assoc; reflexivity |].
    split; [simpl; rewrite Hlen; reflexivity |].
    intros [| j] u Hj.
    + injection Hj as <-. exists stale0, later0.
      rewrite Nat.add_0_r. split; [exact Hrnd |].
      split; [exact Hfresh |]. split; [intros [] |].
      eapply Forall_impl; [exact Hstale |].
      intros x Hx. left. apply negb_false_iff in Hx. exact Hx.
    + destruct (Hall j u Hj) as (stale & later & Hr & Hnew & Hnot & Hst).
      exists stale, later.
      replace (i0 + S j)%nat with (S i0 + j)%nat by lia.
      split; [exact Hr |].
      assert (Hk : key u <> key u0 /\ existing updateSet (key u) = false).
      { destruct (existing updateSet (key u)) eqn:He.
        - rewrite (proj2 (existing_insert updateSet (key u0) (key u))) in Hnew
            by (right; exact He). discriminate Hnew.
        - split; [| reflexivity]. intros Heq.
          rewrite (proj2 (existing_insert updateSet (key u0) (key u))) in Hnew
            by (left; exact Heq). discriminate Hnew. }
      split; [apply Hk |]. split.
      * cbn [take map In]. intros [Heq | Hin]; [| exact (Hnot Hin)].
        destruct Hk as [Hk _]. apply Hk. symmetry. exact Heq.
      * eapply Forall_impl; [exact Hst |].
        intros x [Hx | Hx]; cbn [take map In].
        -- apply existing_insert in Hx as [-> | Hx]; [right; left; reflexivity |].
           left. exact Hx.
        -- right. right. exact Hx.
Qed.

(** X17: the packet at position [i] of a block that [BlockDataGenN]
    generates is the first of the updates tried in round [i] whose key
    is not the key of a packet before it: the filter refuses the
    updates whose key is taken already and nothing else. *)
Theorem BlockDataGenN_takes_first_fresh (maxUpdatesPerBlock : Z)
    (rnd : Random) (packets : BlockData) (i : nat) :
  BlockDataGenN fmt_v maxUpdatesPerBlock rnd = Some packets ->
  (i < length packets)%nat ->
  exists update stale later,
    packets !! i = Some (PObjectUpdateData update) /\
    random_updates rnd i = stale ++ update :: later /\
    ~ In (key update) (map key (updates_of (take i packets))) /\
    Forall (fun x => In (key x) (map key (updates_of (take i packets))))
      stale.
Proof.
  unfold BlockDataGenN.
  destruct (IntRange_Draw 1 maxUpdatesPerBlock (random_numUpdates rnd))
    as [numUpdates |]; [| discriminate].
  intros Hrun Hi.
  apply draw_updates_first_fresh in Hrun as (updates & -> & Hlen & Hall).
  cbn [app] in *. rewrite length_map in Hi.
  destruct (lookup_lt_is_Some_2 updates i Hi) as [u Hu].
  destruct (Hall i u Hu) as (stale & later & Hr & _ & Hnot & Hst).
  exists u, stale, later.
  change (map PObjectUpdateData updates)
    with (PObjectUpdateData <$> updates).
  unfold BlockData in *.
  rewrite <- fmap_take, list_lookup_fmap, Hu.
  change (PObjectUpdateData <$> take i updates)
    with (map PObjectUpdateData (take i updates)).
  rewrite updates_of_map.
  split; [reflexivity |].
  split; [exact Hr |]. split; [exact Hnot |].
  eapply Forall_impl; [exact Hst |].
  intros x [Hx | Hx]; [discriminate Hx | exact Hx].
Qed.

End BlockDataGen_draws.

Lemma BlockDataGenN_takes_first_fresh_witness :
  let packets := [PObjectUpdateData (examples.bank_update 1);
                  PObjectUpdateData (examples.bank_update 2)] in
  BlockDataGenN examples.show_key 3 examples.rnd0 = Some packets /\
  (1 < length packets)%nat /\
  exists update stale later,
    packets !! 1%nat = Some (PObjectUpdateData update) /\
    random_updates examples.rnd0 1 = stale ++ update :: later /\
    ~ In (update_key examples.show_key update)
         (map (update_key examples.show_key) (updates_of (take 1 packets))) /\
    Forall (fun x => In (update_key examples.show_key x)
                       (map (update_key examples.show_key)
                          (updates_of (take 1 packets))))
      stale.
Proof.
  intros packets.
  assert (H : BlockDataGenN examples.show_key 3 examples.rnd0 = Some packets)
    by (vm_compute; reflexivity).
  assert (Hi : (1 < length packets)%nat) by (simpl; lia).
  split; [exact H |]. split; [exact Hi |].
  exact (BlockDataGenN_takes_first_fresh examples.show_key 3 examples.rnd0
           packets 1 H Hi).
Defined.

Section BlockDataGen_progress.

Variable fmt_v : GoValue -> string.

Abbreviation key' := (update_key fmt_v).



End BlockDataGen_progress.



(** * The store keys of a module *)

Section store_keys.

Import runtime.

(** The result of the loop of [storeKeyOverride]. *)
Lemma storeKeyOverride_loop_first (config : Module) (moduleName : string) :
  match storeKeyOverride config moduleName with
  | Some cfg =>
    exists before after,
      OverrideStoreKeys config = before ++ cfg :: after /\
      ModuleName cfg = moduleName /\
      Forall (fun c => ModuleName c <> moduleName) before
  | None =>
    Forall (fun c => ModuleName c <> moduleName) (OverrideStoreKeys config)
  end.
Proof.
  unfold storeKeyOverride.
  induction (OverrideStoreKeys config) as [| cfg rest IH];
    cbn [storeKeyOverride_loop]; [constructor |].
  destruct (String.eqb_spec (ModuleName cfg) moduleName) as [Heq | Hne].
  - exists [], rest. repeat split; [exact Heq | constructor].
  - destruct (storeKeyOverride_loop rest moduleName) as [found |].
    + destruct IH as (before & after & -> & Hname & Hbefore).
      exists (cfg :: before), after. repeat split; [exact Hname |].
      apply Forall_cons. split; [exact Hne | exact Hbefore].
    + apply Forall_cons. split; [exact Hne | exact IH].
Qed.

Lemma storeKeyOverride_loop_app (before after : list StoreKeyConfig)
    (cfg : StoreKeyConfig) :
  Forall (fun c => ModuleName c <> ModuleName cfg) before ->
  storeKeyOverride_loop (before ++ cfg :: after) (ModuleName cfg) = Some cfg.
Proof.
  induction before as [| c before IH]; intros Hbefore; cbn.
  - rewrite String.eqb_refl. reflexivity.
  - apply Forall_cons in Hbefore as [Hc Hbefore].
    destruct (String.eqb_spec (ModuleName c) (ModuleName cfg));
      [contradiction | exact (IH Hbefore)].
Qed.

(** X19: [storeKeyOverride] gives the first entry of
    [OverrideStoreKeys] that names the module, and no other: of two
    overrides of one module the later is ignored. It gives nil exactly
    when no entry names the module. *)
Theorem storeKeyOverride_first (config : Module) (moduleName : string) :
  (forall cfg,
     storeKeyOverride config moduleName = Some cfg <->
     exists before after,
       OverrideStoreKeys config = before ++ cfg :: after /\
       ModuleName cfg = moduleName /\
       Forall (fun c => ModuleName c <> moduleName) before) /\
  (storeKeyOverride config moduleName = None <->
   Forall (fun c => ModuleName c <> moduleName) (OverrideStoreKeys config)).
Proof.
  pose proof (storeKeyOverride_loop_first config moduleName) as Hfirst.
  split.
  - intros cfg. split.
    + intros Hsome. rewrite Hsome in Hfirst. exact Hfirst.
    + intros (before & after & Hcfgs & <- & Hbefore).
      unfold storeKeyOverride. rewrite Hcfgs.
      apply storeKeyOverride_loop_app. exact Hbefore.
  - split.
    + intros Hnone. rewrite Hnone in Hfirst. exact Hfirst.
    + intros Hall.
      destruct (storeKeyOverride config moduleName) as [cfg |];
        [| reflexivity].
      destruct Hfirst as (before & after & Hcfgs & Hname & _).
      rewrite Hcfgs in Hall. apply Forall_app in Hall as [_ Hall].
      apply Forall_cons in Hall as [Hcfg _]. contradiction.
Qed.

Lemma Contains_In (s : list string) (v : string) :
  Contains s v = true <-> In v s.
Proof.
  unfold Contains. rewrite existsb_exists. split.
  - intros (x & Hin & Hx). apply String.eqb_eq in Hx. subst x. exact Hin.
  - intros Hin. exists v. split; [exact Hin | apply String.eqb_refl].
Qed.

(** X20: [ProvideEnvironment] registers no store key for a module
    listed in [SkipStoreKeys] and gives it the failing services, even
    when the module has an override. For any other module it appends
    two keys to the keys registered before: the key of the first
    override of the module, or the name of the module when there is
    none, and then [memory:] followed by the name of the module, the
    override having no part in the memory key; the services it
    returns are made of these two keys. *)
Theorem ProvideEnvironment_store_keys (config : Module) (name : string)
    (storeKeys : list string) :
  let result := ProvideEnvironment config name storeKeys in
  (In name (SkipStoreKeys config) /\
   result = (storeKeys, failingStoreService, failingStoreService))
  \/ (~ In name (SkipStoreKeys config) /\
      exists kvStoreKey,
        result = (storeKeys ++ [kvStoreKey; "memory:" +:+ name],
                  NewKVStoreService (list_ascii_of_string kvStoreKey),
                  NewMemoryStoreService
                    (list_ascii_of_string ("memory:" +:+ name))) /\
        ((Forall (fun c => ModuleName c <> name) (OverrideStoreKeys config) /\
          kvStoreKey = name)
         \/ exists before cfg after,
              OverrideStoreKeys config = before ++ cfg :: after /\
              Forall (fun c => ModuleName c <> name) before /\
              ModuleName cfg = name /\ kvStoreKey = KvStoreKey cfg)).
Proof.
  intros result. subst result. unfold ProvideEnvironment.
  destruct (Contains (SkipStoreKeys config) name) eqn:Hskip; cbn [negb].
  - left. split; [apply Contains_In; exact Hskip | reflexivity].
  - right. split.
    { intros Hin. apply Contains_In in Hin. congruence. }
    pose proof (storeKeyOverride_loop_first config name) as Hfirst.
    unfold storeKeyOverride in *.
    destruct (storeKeyOverride_loop (OverrideStoreKeys config) name)
      as [cfg |].
    + exists (KvStoreKey cfg). unfold registerStoreKey.
      split; [rewrite <- app_assoc; reflexivity |].
      right. destruct Hfirst as (before & after & Hcfgs & Hname & Hbefore).
      exists before, cfg, after. auto.
    + exists name. unfold registerStoreKey.
      split; [rewrite <- app_assoc; reflexivity |].
      left. auto.
Qed.

End store_keys.

(** * A generated block, replayed *)

Section generated_block_replayed.

Context {ListenerState App : Type}.
Variable ApplyUpdate : string -> ObjectUpdate -> App -> App * error.
Variable fmt_v : GoValue -> string.

Lemma updates_of_prefix (data1 data2 : BlockData) :
  data1 `prefix_of` data2 -> updates_of data1 `prefix_of` updates_of data2.
Proof.
  intros [rest ->]. exists (updates_of rest). unfold updates_of.
  apply omap_app.
Qed.

(** X21: while a block that [BlockDataGenN] generated is processed,
    whether to the end or up to a failure, the state model is never
    handed two updates of the same module and key: the updates applied
    are the first updates of the block, in order, and their pairs of
    module name and key are pairwise different. *)
Theorem generated_block_applies_distinct_keys
    (a : Simulator ListenerState App) (maxUpdatesPerBlock : Z)
    (rnd : Random) (packets : BlockData) :
  BlockDataGenN fmt_v maxUpdatesPerBlock rnd = Some packets ->
  let run := ProcessBlockData ApplyUpdate a packets in
  applied_updates run.2 `prefix_of` updates_of packets /\
  NoDup (map (fun u => (ModuleName u, Key (Update u)))
           (applied_updates run.2)).
Proof.
  intros Hgen run.
  destruct (ProcessBlockData_invariants ApplyUpdate a packets)
    as (_ & Hsent & Happlied & _).
  fold run in Hsent, Happlied.
  assert (Hprefix : applied_updates run.2 `prefix_of` updates_of packets).
  { etransitivity; [exact Happlied |]. apply updates_of_prefix. exact Hsent. }
  split; [exact Hprefix |].
  unfold BlockDataGenN in Hgen.
  destruct (IntRange_Draw 1 maxUpdatesPerBlock (random_numUpdates rnd))
    as [numUpdates |]; [| discriminate].
  apply draw_updates_spec in Hgen as (updates & -> & _ & Hnd & _).
  cbn [app] in Hprefix. rewrite updates_of_map in Hprefix.
  destruct Hprefix as [rest Hrest]. rewrite Hrest in Hnd.
  apply (NoDup_fmap_1 (fun p : string * GoValue => p.1 +:+ ":" +:+ fmt_v p.2)).
  change (NoDup (map (fun p : string * GoValue => p.1 +:+ ":" +:+ fmt_v p.2)
                   (map (fun u => (ModuleName u, Key (Update u)))
                      (applied_updates run.2)))).
  rewrite map_map.
  rewrite map_app in Hnd. apply NoDup_app in Hnd as [Hnd _]. exact Hnd.
Qed.

End generated_block_replayed.

Lemma generated_block_applies_distinct_keys_witness :
  let packets := [PObjectUpdateData (examples.bank_update 1);
                  PObjectUpdateData (examples.bank_update 2)] in
  let a := examples.sim0 examples.second_fails in
  let run := ProcessBlockData examples.log_update a packets in
  BlockDataGenN examples.show_key 3 examples.rnd0 = Some packets /\
  applied_updates run.2 `prefix_of` updates_of packets /\
  NoDup (map (fun u => (ModuleName u, Key (Update u)))
           (applied_updates run.2)).
Proof.
  intros packets a run.
  assert (H : BlockDataGenN examples.show_key 3 examples.rnd0 = Some packets)
    by (vm_compute; reflexivity).
  split; [exact H |].
  exact (generated_block_applies_distinct_keys examples.log_update
           examples.show_key a 3 examples.rnd0 packets H).
Defined.

(** The store keys of [examples3.config0], run. *)
Example store_keys_examples :
  runtime.storeKeyOverride examples3.config0 "bank"
  = Some {| runtime.ModuleName := "bank"; runtime.KvStoreKey := "bank2" |} /\
  runtime.storeKeyOverride examples3.config0 "gov" = None /\
  (runtime.ProvideEnvironment examples3.config0 "bank" ["acc"]).1.1
  = ["acc"; "bank2"; "memory:bank"] /\
  (runtime.ProvideEnvironment examples3.config0 "gov" []).1.1
  = ["gov"; "memory:gov"] /\
  runtime.ProvideEnvironment examples3.config0 "upgrade" ["acc"]
  = (["acc"], runtime.failingStoreService, runtime.failingStoreService).
Proof. repeat split; reflexivity. Qed.
